(** * pr-enforcer: the check-run reconciliation and decision engine

    A shallow embedding of [src/cli.py]: de-duplication of check runs
    ([reduce_to_latest_runs]), the name filter and the classification by
    status and conclusion (the body of [poll_vault]), the fail-fast versus
    exhaustive decision, the retry loop that the [tenacity] decorator puts
    around [poll_vault], and the command [hello] that drives it all.

    Python strings are modelled as [string] (code points below 256),
    Python [int]s as [Z], [None]-able values as [option], exceptions as the
    inductive [exn], and the side effects (log records, the step-summary
    file, calls to the GitHub API, sleeping) as a trace of [event]s that a
    small writer-and-error monad threads through the code. *)

From Stdlib Require Import List String Ascii ZArith Bool Lia Arith.
Import ListNotations.
Local Open Scope string_scope.
Local Open Scope list_scope.
Local Open Scope Z_scope.

(** ** Data model *)

(** [github.CheckRun.CheckRun], restricted to the four attributes the
    program reads.  [conclusion] is [None] while GitHub reports no
    conclusion. *)
Record CheckRun := mkCheckRun {
  id : Z;
  name : string;
  status : string;
  conclusion : option string
}.

(** Values that reach a format string of the configuration dump. *)
Inductive pyval :=
| VStr (s : string)
| VInt (z : Z)
| VBool (b : bool)
| VNone.

Definition opt_str (o : option string) : pyval :=
  match o with Some s => VStr s | None => VNone end.

(** The exceptions that can travel through the program. *)
Inductive exn :=
| Enforcer (msg : string)        (* class Enforcer(Exception) *)
| PyException (msg : string)     (* a plain Exception(msg) *)
| AttributeError                 (* None has no attribute split *)
| IndexError                     (* runs[0] on an empty list *)
| ValueError                     (* time.sleep of a negative length *)
| GithubException (code : Z)     (* any error raised by the GitHub client *)
| RetryError                     (* tenacity: the stop condition was met *)
| SystemExit (code : Z).         (* sys.exit; not an Exception subclass *)

(** [isinstance(e, Exception)]: everything but [SystemExit]. *)
Definition is_Exception (e : exn) : bool :=
  match e with SystemExit _ => false | _ => true end.

(** [isinstance(e, Enforcer)]. *)
Definition is_Enforcer (e : exn) : bool :=
  match e with Enforcer _ => true | _ => false end.

Module BColors.
Definition esc : string := String (ascii_of_nat 27) EmptyString.
Definition Red := String.append esc "[91m".
Definition Green := String.append esc "[92m".
Definition Teal := String.append esc "[94m".
Definition Grey := String.append esc "[90m".
Definition ResetAll := String.append esc "[0m".
Definition Debug := String.append esc "[35m".
Definition Separator := String.append esc "[33m".
End BColors.

Module Status.
Definition queued := "queued".
Definition in_progress := "in_progress".
Definition completed := "completed".
Definition complete : list string := [completed].
Definition incomplete : list string := [queued; in_progress].
End Status.

Module Conclusion.
Definition action_required := "action_required".
Definition cancelled := "cancelled".
Definition timed_out := "timed_out".
Definition failure := "failure".
Definition failed := "failed".
Definition neutral := "neutral".
Definition skipped := "skipped".
Definition stale := "stale".
Definition startup_failure := "startup_failure".
Definition success := "success".
Definition ignored : list string := [neutral; skipped].
Definition fail : list string :=
  [action_required; cancelled; timed_out; failure; failed; stale;
   startup_failure].
Definition succeeded : list string := [success].
End Conclusion.

(** [s in l] for a list of strings. *)
Definition str_in (s : string) (l : list string) : bool :=
  existsb (String.eqb s) l.

(** [x in l] where [x] may be [None] and the list holds strings only. *)
Definition opt_in (x : option string) (l : list string) : bool :=
  match x with
  | Some s => str_in s l
  | None => false
  end.

(** [s in l] where the list may hold [None] (the ignore list does, when
    [--name] is omitted) and [s] is a string. *)
Definition in_user_ignore (s : string) (l : list (option string)) : bool :=
  existsb (fun x => match x with
                    | Some t => String.eqb s t
                    | None => false
                    end) l.

(** ** Effects *)

Inductive level := DEBUG | INFO | ERROR | FATAL.

(** One constructor per format string of the source, carrying the values
    that are interpolated into it; [MText] is a literal text (its colour
    codes left out) and [MTable] the summary table.  [MStatistics] and
    [MAttemptBanner] print the statistics that the retry decorator keeps;
    reading them does not raise. *)
Inductive message :=
| MText (s : string)
| MTable (table : string)
| MConfig (key : string) (value : pyval)
| MLogLevel (debug : bool)
| MUserIgnoreItem (ui : string)
| MStatistics
| MAttemptBanner
| MRunState (r : CheckRun)
| MGroupCounts (counts : list (string * nat))
| MBucketCount (color verb : string) (n : nat)
| MBucketItem (color marker run_name : string)
| MTotalCompletion (n : nat)
| MFailedExecutions (names : list string)
| MRetryIn (interval : Z)
| MAnnotation.

Inductive api_call := GetRepo | GetBranch | GetCommit | GetCheckRuns.

Inductive event :=
| Log (lvl : level) (m : message)
| AppendFile (path text : string)
| Api (call : api_call)
| Sleep (seconds : Z).

Definition trace := list event.

(** How a computation ends: with a value, with an exception, or (for the
    retry loop only) with the fuel of the model used up. *)
Inductive outcome (A : Type) :=
| Ok (a : A)
| Raise (e : exn)
| OutOfFuel.
Arguments Ok {A} a.
Arguments Raise {A} e.
Arguments OutOfFuel {A}.

Definition M (A : Type) : Type := trace * outcome A.

Definition ret {A} (a : A) : M A := ([], Ok a).
Definition raise {A} (e : exn) : M A := ([], Raise e).
Definition tell (ev : event) : M unit := ([ev], Ok tt).

Definition bind {A B} (m : M A) (f : A -> M B) : M B :=
  match m with
  | (t1, Ok a) => let (t2, r) := f a in (t1 ++ t2, r)
  | (t1, Raise e) => (t1, Raise e)
  | (t1, OutOfFuel) => (t1, OutOfFuel)
  end.

(** [try: m except Exception: h] *)
Definition try_except {A} (m : M A) (h : exn -> M A) : M A :=
  match m with
  | (t1, Raise e) =>
      if is_Exception e then let (t2, r) := h e in (t1 ++ t2, r)
      else (t1, Raise e)
  | other => other
  end.

Declare Scope py_scope.
Delimit Scope py_scope with py.
Notation "x <- m ;; k" := (bind m (fun x => k))
  (at level 61, m at next level, right associativity) : py_scope.
Notation "m ;; k" := (bind m (fun _ => k))
  (at level 61, right associativity) : py_scope.
Local Open Scope py_scope.

Fixpoint for_each {A} (l : list A) (body : A -> M unit) : M unit :=
  match l with
  | [] => ret tt
  | x :: rest => body x ;; for_each rest body
  end.

Definition trace_of {A} (m : M A) : trace := fst m.
Definition result_of {A} (m : M A) : outcome A := snd m.

(** The logger: its level is INFO, or DEBUG under [--debug], so a debug
    record is written only under [--debug]. *)
Section Logger.
Variable debug : bool.

Definition logger_info (m : message) : M unit := tell (Log INFO m).
Definition logger_fatal (m : message) : M unit := tell (Log FATAL m).
Definition logger_exception (m : message) : M unit := tell (Log ERROR m).
Definition logger_debug (m : message) : M unit :=
  if debug then tell (Log DEBUG m) else ret tt.
End Logger.

(** ** De-duplication: [reduce_to_latest_runs] *)

(** [groups[run.name].append(run)] on a [defaultdict(list)]: a dict keeps
    its keys in insertion order, so it is an association list in which a
    new key goes last. *)
Fixpoint groups_append (groups : list (string * list CheckRun))
         (run : CheckRun) : list (string * list CheckRun) :=
  match groups with
  | [] => [(name run, [run])]
  | (k, v) :: rest =>
      if String.eqb k (name run) then (k, v ++ [run]) :: rest
      else (k, v) :: groups_append rest run
  end.

Definition group_by_name (check_runs : list CheckRun)
  : list (string * list CheckRun) :=
  fold_left groups_append check_runs [].

(** [runs.sort(key=lambda vs: vs.id, reverse=True)]: a stable sort, largest
    id first; runs of equal id keep their order. *)
Fixpoint insert_desc (x : CheckRun) (sorted : list CheckRun)
  : list CheckRun :=
  match sorted with
  | [] => [x]
  | y :: rest =>
      if id x <? id y then y :: insert_desc x rest else x :: y :: rest
  end.

Fixpoint sort_by_id_desc (runs : list CheckRun) : list CheckRun :=
  match runs with
  | [] => []
  | x :: rest => insert_desc x (sort_by_id_desc rest)
  end.

(** The loop [for _name, runs in groups.items()]. *)
Fixpoint collect_latest (groups : list (string * list CheckRun))
         (latest_runs : list CheckRun) : M (list CheckRun) :=
  match groups with
  | [] => ret latest_runs
  | (_, runs) :: rest =>
      match sort_by_id_desc runs with
      | [] => raise IndexError
      | r0 :: _ => collect_latest rest (latest_runs ++ [r0])
      end
  end.

Definition reduce_to_latest_runs (debug : bool) (check_runs : list CheckRun)
  : M (list CheckRun) :=
  let groups := group_by_name check_runs in
  logger_debug debug (MText "Logging Run Check counts grouped") ;;
  logger_debug debug
    (MGroupCounts (map (fun kv => (fst kv, List.length (snd kv))) groups)) ;;
  latest_runs <- collect_latest groups [] ;;
  logger_debug debug (MText "Logging Latest Checks") ;;
  for_each latest_runs (fun run => logger_debug debug (MRunState run)) ;;
  ret latest_runs.

(** ** Classification helpers and the summary *)

Definition nonempty {A} (l : list A) : bool :=
  match l with [] => false | _ :: _ => true end.

Definition filter_and_log_by_conclusion (debug : bool)
           (complete : list CheckRun) (conclusions : list string)
           (color verb marker : string) : M (list CheckRun) :=
  let runs := filter (fun _run => opt_in (conclusion _run) conclusions)
                     complete in
  logger_info (MBucketCount color verb (List.length runs)) ;;
  for_each runs
    (fun run => logger_debug debug (MBucketItem color marker (name run))) ;;
  ret runs.

Definition filter_and_log_by_status (debug : bool)
           (runs : list CheckRun) (statuses : list string)
           (color verb marker : string) : M (list CheckRun) :=
  let runs := filter (fun _run => str_in (status _run) statuses) runs in
  logger_info (MBucketCount color verb (List.length runs)) ;;
  for_each runs
    (fun run => logger_debug debug (MBucketItem color marker (name run))) ;;
  ret runs.

Definition nl : string := String (ascii_of_nat 10) EmptyString.

(** [f"{run.conclusion}"]: [None] prints as the word None. *)
Definition fmt_conclusion (c : option string) : string :=
  match c with Some s => s | None => "None" end.

Definition table_row (run : CheckRun) : string :=
  String.append nl
    (String.append "|"
       (String.append (name run)
          (String.append "|"
             (String.append (status run)
                (String.append "|"
                   (String.append (fmt_conclusion (conclusion run)) "|")))))).

Definition summary_table (runs : list CheckRun) : string :=
  String.append
    (fold_left (fun table run => String.append table (table_row run)) runs
       (String.append
          (String.append nl "|  Run Name | Status | Conclusion |")
          (String.append nl "|--------|--------|--------|")))
    nl.

(** [log_summary]: the table goes to the file named by the environment
    variable GITHUB_STEP_SUMMARY when that is set and not empty ([print]
    adds a newline; the append is taken to succeed), and to the debug log
    otherwise. *)
Definition log_summary (debug : bool) (GITHUB_STEP_SUMMARY : option string)
           (runs : list CheckRun) : M unit :=
  let table := summary_table runs in
  match GITHUB_STEP_SUMMARY with
  | Some (String c path) =>
      tell (AppendFile (String c path) (String.append table nl))
  | _ => logger_debug debug (MTable table)
  end.

(** ** The world outside the program *)

(** What the program observes of its surroundings: the environment
    variable, the answers of the GitHub client while the commit is looked
    up, the answer of the n-th call of [commit.get_check_runs()] (attempts
    are numbered from 1), and how many milliseconds the n-th attempt of
    [poll_vault] takes.  An error of the client is a code, raised as
    [GithubException code]: the client knows nothing of [Enforcer]. *)
Record World := {
  GITHUB_STEP_SUMMARY : option string;
  lookup_error : api_call -> option Z;
  get_check_runs : nat -> list CheckRun + Z;
  attempt_millis : nat -> N
}.

Definition api (w : World) (call : api_call) : M unit :=
  tell (Api call) ;;
  match lookup_error w call with
  | Some code => raise (GithubException code)
  | None => ret tt
  end.

(** ** One poll: the body of [poll_vault] *)

Definition bail_out : string :=
  String.append BColors.Red
    (String.append "Failed Executions Detected, bailing out"
       BColors.ResetAll).

Definition still_waiting : string :=
  "Still waiting on more workflows to complete".

(** The UTF-8 bytes of the check mark that marks a succeeded run. *)
Definition check_mark : string :=
  String (ascii_of_nat 226)
    (String (ascii_of_nat 156) (String (ascii_of_nat 147) EmptyString)).

Section PollVault.
(** The variables of [hello] that the closure [poll_vault] captures. *)
Variable w : World.
Variable debug : bool.
Variable exhaustive : bool.
Variable interval : Z.
Variable user_ignore : list (option string).

(** Lines 244-260: what one poll decides from the failed and the
    incomplete runs. *)
Definition decide (latest_runs _runs incomplete failed_runs
                   : list CheckRun) : M (list CheckRun) :=
  failed_state <-
    (if nonempty failed_runs then
       logger_fatal (MFailedExecutions (map name failed_runs)) ;;
       (if negb exhaustive then
          log_summary debug (GITHUB_STEP_SUMMARY w) latest_runs ;;
          raise (PyException bail_out)
        else ret tt) ;;
       ret true
     else ret false) ;;
  (if nonempty incomplete then
     logger_info (MRetryIn interval) ;;
     raise (Enforcer still_waiting)
   else ret tt) ;;
  (if failed_state : bool then
     log_summary debug (GITHUB_STEP_SUMMARY w) latest_runs ;;
     raise (PyException bail_out)
   else ret tt) ;;
  ret _runs.

(** [list(commit.get_check_runs())] in attempt [n]. *)
Definition fetch_check_runs (n : nat) : M (list CheckRun) :=
  tell (Api GetCheckRuns) ;;
  match get_check_runs w n with
  | inl runs => ret runs
  | inr code => raise (GithubException code)
  end.

Definition not_ignored (r : CheckRun) : bool :=
  negb (in_user_ignore (name r) user_ignore).

Definition poll_vault (n : nat) : M (list CheckRun) :=
  logger_debug debug MStatistics ;;
  logger_info MAttemptBanner ;;
  logger_info (MText "GitHub: Fetching Check Runs") ;;
  check_runs <- fetch_check_runs n ;;
  logger_debug debug (MText "Logging All Checks") ;;
  for_each check_runs (fun run => logger_debug debug (MRunState run)) ;;
  latest_runs <- reduce_to_latest_runs debug check_runs ;;
  let _runs := filter not_ignored latest_runs in
  incomplete <-
    filter_and_log_by_status debug _runs Status.incomplete BColors.Teal
      "Waiting on completion" "" ;;
  let complete :=
    filter (fun _run => str_in (status _run) Status.complete) _runs in
  logger_info (MTotalCompletion (List.length complete)) ;;
  filter_and_log_by_conclusion debug complete Conclusion.ignored
    BColors.Grey "Ignored completion" "-" ;;
  filter_and_log_by_conclusion debug complete Conclusion.succeeded
    BColors.Green "Celebrated completion" check_mark ;;
  failed_runs <-
    filter_and_log_by_conclusion debug complete Conclusion.fail
      BColors.Red "Mourned failure" "X" ;;
  decide latest_runs _runs incomplete failed_runs.
End PollVault.

(** ** The retry decorator *)

Module Tenacity.
(** [@retry(stop=stop_after_delay(timeout), wait=wait_fixed(interval),
    retry=retry_if_exception_type(Enforcer))], as the library documents
    it.  Time is counted in milliseconds since the first attempt began;
    attempt [n] begins at [began] and takes [took n].  After an attempt
    that raised: an exception that is no [Enforcer] is raised again; if
    the time since the first attempt began has reached [timeout] seconds
    the loop gives up with [RetryError]; otherwise it sleeps [interval]
    seconds ([time.sleep] refuses a negative length) and tries again. *)
Section Retrying.
Context {A : Type}.
Variable timeout interval : Z.
Variable took : nat -> N.
Variable fn : nat -> M A.

Definition stop_after_delay (finished : Z) : bool :=
  1000 * timeout <=? finished.

Fixpoint retrying (fuel : nat) (n : nat) (began : Z) : M A :=
  match fuel with
  | O => ([], OutOfFuel)
  | S fuel' =>
      match fn n with
      | (t, Raise e) =>
          if negb (is_Enforcer e) then (t, Raise e)
          else
            let finished := began + Z.of_N (took n) in
            if stop_after_delay finished then (t, Raise RetryError)
            else if interval <? 0 then (t, Raise ValueError)
            else
              let (t', r) :=
                retrying fuel' (S n) (finished + 1000 * interval) in
              (t ++ Sleep interval :: t', r)
      | other => other
      end
  end.
End Retrying.
End Tenacity.

(** The decorated [poll_vault], called once at line 263: attempts are
    numbered from 1 and the clock starts at 0. *)
Definition poll_vault_retrying (w : World) (fuel : nat)
           (interval timeout : Z) (user_ignore : list (option string))
           (exhaustive debug : bool) : M (list CheckRun) :=
  Tenacity.retrying timeout interval (attempt_millis w)
    (poll_vault w debug exhaustive interval user_ignore) fuel 1%nat 0.

(** ** The command *)

(** [str.isspace] on the code points below 256. *)
Definition is_space (c : ascii) : bool :=
  let n := nat_of_ascii c in
  ((9 <=? n) && (n <=? 13) || (28 <=? n) && (n <=? 32)
   || (n =? 133) || (n =? 160))%nat.

(** [s.split(",")] *)
Fixpoint split_comma (s : string) : list string :=
  match s with
  | EmptyString => [EmptyString]
  | String c rest =>
      if Ascii.eqb c "," then EmptyString :: split_comma rest
      else
        match split_comma rest with
        | piece :: pieces => String c piece :: pieces
        | [] => [String c EmptyString]
        end
  end.

Fixpoint lstrip (s : string) : string :=
  match s with
  | String c rest => if is_space c then lstrip rest else s
  | EmptyString => EmptyString
  end.

Fixpoint rstrip (s : string) : string :=
  match s with
  | String c rest =>
      match rstrip rest with
      | EmptyString => if is_space c then EmptyString
                       else String c EmptyString
      | kept => String c kept
      end
  | EmptyString => EmptyString
  end.

(** [str.strip] *)
Definition strip (s : string) : string := rstrip (lstrip s).

Definition update_logging (debug : bool) : M unit :=
  logger_debug debug (MLogLevel debug).

(** Line 179: [ignore.split(",")] on [None] raises [AttributeError]. *)
Definition split_ignore (ignore : option string) : M (list string) :=
  match ignore with
  | None => raise AttributeError
  | Some s => ret (map strip (split_comma s))
  end.

(** Line 185: [user_ignore.append(name)]; [name] is [None] when the
    option is omitted. *)
Definition append_name (user_ignore : list string) (name : option string)
  : list (option string) :=
  map Some user_ignore ++ [name].

Definition annotate (debug : bool) : M unit :=
  if debug then logger_exception MAnnotation else logger_fatal MAnnotation.

Definition hello (w : World) (fuel : nat)
           (token repository branch : string) (interval timeout : Z)
           (name ignore : option string) (exhaustive debug : bool)
  : M unit :=
  logger_info (MText "Using config:") ;;
  logger_info (MConfig "repository" (VStr repository)) ;;
  logger_info (MConfig "branch" (VStr branch)) ;;
  logger_info (MConfig "interval" (VInt interval)) ;;
  logger_info (MConfig "timeout" (VInt timeout)) ;;
  logger_info (MConfig "name" (opt_str name)) ;;
  logger_info (MConfig "ignore" (opt_str ignore)) ;;
  logger_info (MConfig "exhaustive" (VBool exhaustive)) ;;
  logger_info (MConfig "debug" (VBool debug)) ;;
  update_logging debug ;;
  stripped <- split_ignore ignore ;;
  logger_debug debug (MText "User Ignore:") ;;
  for_each stripped (fun ui => logger_debug debug (MUserIgnoreItem ui)) ;;
  logger_debug debug (MText "") ;;
  let user_ignore := append_name stripped name in
  logger_info (MText "GitHub: Authenticating") ;;
  logger_info (MText "GitHub: Fetching Repo") ;;
  api w GetRepo ;;
  logger_info (MText "GitHub: Fetching Branch") ;;
  api w GetBranch ;;
  logger_info (MText "GitHub: Fetching Commit") ;;
  api w GetCommit ;;
  try_except
    (poll_vault_retrying w fuel interval timeout user_ignore exhaustive
       debug ;;
     ret tt)
    (fun _ => annotate debug ;; raise (SystemExit 1)).


(** ** Notions used in the statements *)

(** A computation that only writes log records. *)
Definition logs_only (t : trace) : Prop :=
  forall ev, In ev t -> exists lvl m, ev = Log lvl m.

Definition head_is_max (s : list CheckRun) : Prop :=
  match s with
  | [] => True
  | r0 :: _ => forall y, In y s -> id y <= id r0
  end.

(** The groups: [groups[k]] read as on a [defaultdict]. *)
Definition group_of (k : string) (groups : list (string * list CheckRun))
  : list CheckRun :=
  match find (fun kv => String.eqb (fst kv) k) groups with
  | Some kv => snd kv
  | None => []
  end.

Definition has_name (k : string) (r : CheckRun) : bool :=
  String.eqb (name r) k.

(** The run that [reduce_to_latest_runs] keeps of one group. *)
Definition pick_latest (kv : string * list CheckRun) : list CheckRun :=
  match sort_by_id_desc (snd kv) with
  | r0 :: _ => [r0]
  | [] => []
  end.

Definition latest_runs_of (check_runs : list CheckRun) : list CheckRun :=
  flat_map pick_latest (group_by_name check_runs).

(** The buckets that one poll computes (lines 214-242), without the log
    records: [runs_of] is [_runs], [complete_of] is [complete]. *)
Record ClassifiedBatch := mkBatch {
  incomplete : list CheckRun;
  ignored : list CheckRun;
  succeeded : list CheckRun;
  failed : list CheckRun
}.

Definition runs_of (user_ignore : list (option string))
           (check_runs : list CheckRun) : list CheckRun :=
  filter (not_ignored user_ignore) (latest_runs_of check_runs).

Definition complete_of (user_ignore : list (option string))
           (check_runs : list CheckRun) : list CheckRun :=
  filter (fun _run => str_in (status _run) Status.complete)
         (runs_of user_ignore check_runs).

Definition with_conclusion (conclusions : list string)
           (complete : list CheckRun) : list CheckRun :=
  filter (fun _run => opt_in (conclusion _run) conclusions) complete.

Definition classify (user_ignore : list (option string))
           (check_runs : list CheckRun) : ClassifiedBatch :=
  let complete := complete_of user_ignore check_runs in
  {| incomplete :=
       filter (fun _run => str_in (status _run) Status.incomplete)
              (runs_of user_ignore check_runs);
     ignored := with_conclusion Conclusion.ignored complete;
     succeeded := with_conclusion Conclusion.succeeded complete;
     failed := with_conclusion Conclusion.fail complete |}.

(** A conclusion that one of the three taxonomy lists names. *)
Definition recognized (c : option string) : bool :=
  opt_in c Conclusion.ignored || opt_in c Conclusion.succeeded
  || opt_in c Conclusion.fail.

(** What one poll decides, read off the way [poll_vault] ends: it returns
    (success), raises [Enforcer] (poll again) or raises the plain
    exception of a failed execution. *)
Inductive Decision := Retry | Success | Failure.

Definition decision {A} (r : outcome A) : option Decision :=
  match r with
  | Ok _ => Some Success
  | Raise (Enforcer _) => Some Retry
  | Raise (PyException _) => Some Failure
  | _ => None
  end.

(** A log record other than the summary table. *)
Definition is_plain_log (ev : event) : bool :=
  match ev with
  | Log _ (MTable _) => false
  | Log _ _ => true
  | _ => false
  end.

Definition plain_logs (t : trace) : Prop :=
  forallb is_plain_log t = true.

(** The events by which [log_summary] shows the table. *)
Definition is_summary_event (ev : event) : bool :=
  match ev with
  | AppendFile _ _ => true
  | Log _ (MTable _) => true
  | _ => false
  end.

Definition no_summary (t : trace) : Prop :=
  forallb (fun ev => negb (is_summary_event ev)) t = true.

(** The calls of [commit.get_check_runs()] in a trace: the poll cycles. *)
Definition is_fetch (ev : event) : bool :=
  match ev with Api GetCheckRuns => true | _ => false end.

Definition poll_cycles (t : trace) : nat := List.length (filter is_fetch t).

(** When attempt [n] of the retry loop begins, in milliseconds, if every
    earlier attempt was retried: after the earlier attempts and the sleeps
    between them.  The first attempt begins at 0. *)
Fixpoint began_at (w : World) (interval : Z) (n : nat) : Z :=
  match n with
  | O => 0
  | S m =>
      match m with
      | O => 0
      | S _ =>
          began_at w interval m + Z.of_N (attempt_millis w m)
          + 1000 * interval
      end
  end.

(** ** Sample data *)

Definition run_build : CheckRun :=
  mkCheckRun 11 "build" Status.completed (Some Conclusion.success).
Definition run_lint : CheckRun :=
  mkCheckRun 12 "lint" Status.completed (Some Conclusion.failure).
Definition run_deploy : CheckRun :=
  mkCheckRun 13 "deploy" Status.queued None.
Definition run_codeql : CheckRun :=
  mkCheckRun 14 "CodeQL" Status.completed (Some Conclusion.failure).
Definition run_docs : CheckRun :=
  mkCheckRun 15 "docs" Status.completed (Some "mystery").
Definition run_self : CheckRun :=
  mkCheckRun 16 "enforce-all-checks" Status.in_progress None.

(** A world in which the client never fails, every fetch gives the same
    runs and every attempt takes the same time. *)
Definition steady_world (summary : option string) (runs : list CheckRun)
           (millis : N) : World :=
  {| GITHUB_STEP_SUMMARY := summary;
     lookup_error := fun _ => None;
     get_check_runs := fun _ => inl runs;
     attempt_millis := fun _ => millis |}.

(** The ignore list of the invocation in [debugger.py]. *)
Definition sample_ignore : list (option string) :=
  append_name (map strip (split_comma "label, CodeQL, bridgecrew"))
    (Some "enforce-all-checks").

Definition sample_runs : list CheckRun :=
  [run_build; run_lint; run_deploy; run_codeql; run_self; run_docs].

(** Its buckets: [run_deploy] incomplete, [run_build] succeeded,
    [run_lint] failed, none ignored; [run_codeql] and [run_self] are
    filtered out by name and [run_docs] has no recognized conclusion. *)
Definition sample_batch : ClassifiedBatch :=
  classify sample_ignore sample_runs.

(** ** Further notions *)

(** [dict] keys after [groups[run.name]] is touched for each name in
    turn: a name that is new goes last. *)
Definition add_key (keys : list string) (k : string) : list string :=
  if str_in k keys then keys else keys ++ [k].

(** The distinct names of a list, each at the place of its first
    occurrence. *)
Definition first_seen (names : list string) : list string :=
  rev (nodup string_dec (rev names)).

(** [",".join(pieces)] *)
Fixpoint join_comma (pieces : list string) : string :=
  match pieces with
  | [] => EmptyString
  | piece :: rest =>
      match rest with
      | [] => piece
      | _ :: _ => String.append piece (String "," (join_comma rest))
      end
  end.

Fixpoint has_comma (s : string) : bool :=
  match s with
  | EmptyString => false
  | String c rest => Ascii.eqb c "," || has_comma rest
  end.

Fixpoint all_space (s : string) : bool :=
  match s with
  | EmptyString => true
  | String c rest => is_space c && all_space rest
  end.

Definition starts_with_space (s : string) : bool :=
  match s with
  | EmptyString => false
  | String c _ => is_space c
  end.

Fixpoint ends_with_space (s : string) : bool :=
  match s with
  | EmptyString => false
  | String c rest =>
      match rest with
      | EmptyString => is_space c
      | String _ _ => ends_with_space rest
      end
  end.

(** A status that is neither in [Status.incomplete] nor in
    [Status.complete]. *)
Definition other_status (r : CheckRun) : bool :=
  negb (str_in (status r) Status.incomplete)
  && negb (str_in (status r) Status.complete).

Definition run_waiting : CheckRun :=
  mkCheckRun 17 "approval" "waiting" None.

Definition is_sleep (ev : event) : bool :=
  match ev with Sleep _ => true | _ => false end.

(** What the command may do before it polls: write INFO and DEBUG records
    and look the commit up. *)
Definition startup_event (ev : event) : bool :=
  match ev with
  | Log DEBUG _ | Log INFO _ => true
  | Api GetRepo | Api GetBranch | Api GetCommit => true
  | _ => false
  end.

(** ** What a poll writes about its buckets *)






(** ** The polls and the sleeps of a loop *)

Definition is_poll_or_sleep (ev : event) : bool :=
  is_fetch ev || is_sleep ev.

(** [k] polls with a sleep of [interval] seconds between each two. *)
Fixpoint polls_and_sleeps (interval : Z) (k : nat) : trace :=
  match k with
  | O => []
  | S k' =>
      Api GetCheckRuns
      :: match k' with
         | O => []
         | S _ => Sleep interval :: polls_and_sleeps interval k'
         end
  end.

(** ** The last poll of a loop *)

(** How the ending of the loop relates to the ending of its last poll:
    the loop gives up, or fails to sleep, after a poll that raised
    [Enforcer]; otherwise it ends as that poll did. *)
Definition ends_like (r last : outcome (list CheckRun)) : Prop :=
  match r with
  | Raise RetryError | Raise ValueError =>
      exists msg, last = Raise (Enforcer msg)
  | _ => last = r
  end.

(** A world whose first fetch finds a run still queued and whose later
    fetches find one succeeded run. *)
Definition settling_world : World :=
  {| GITHUB_STEP_SUMMARY := None;
     lookup_error := fun _ => None;
     get_check_runs :=
       fun n => if (n =? 1)%nat then inl [run_deploy] else inl [run_build];
     attempt_millis := fun _ => 250%N |}.
(** * Verification *)

(** ** The monad *)

Lemma bind_result {A B} (m : M A) (f : A -> M B) (a : A) :
  result_of m = Ok a -> result_of (bind m f) = result_of (f a).
Proof.
  destruct m as [t r]; simpl; intros ->; simpl.
  now destruct (f a).
Qed.

Lemma bind_trace {A B} (m : M A) (f : A -> M B) (a : A) :
  result_of m = Ok a -> trace_of (bind m f) = trace_of m ++ trace_of (f a).
Proof.
  destruct m as [t r]; simpl; intros ->; simpl.
  now destruct (f a).
Qed.

Lemma bind_raise {A B} (m : M A) (f : A -> M B) (e : exn) :
  result_of m = Raise e ->
  result_of (bind m f) = Raise e /\ trace_of (bind m f) = trace_of m.
Proof.
  destruct m as [t r]; simpl; intros ->; simpl; auto.
Qed.

Lemma tell_result ev : result_of (tell ev) = Ok tt.
Proof. reflexivity. Qed.

Lemma logger_debug_result debug m : result_of (logger_debug debug m) = Ok tt.
Proof. now destruct debug. Qed.

Lemma logger_info_result m : result_of (logger_info m) = Ok tt.
Proof. reflexivity. Qed.

Lemma for_each_result {A} (l : list A) (body : A -> M unit) :
  (forall x, result_of (body x) = Ok tt) ->
  result_of (for_each l body) = Ok tt.
Proof.
  intros Hbody; induction l as [|x l IH]; simpl; [reflexivity|].
  now rewrite (bind_result _ _ tt (Hbody x)).
Qed.

Lemma plain_logs_app t1 t2 :
  plain_logs t1 -> plain_logs t2 -> plain_logs (t1 ++ t2).
Proof.
  unfold plain_logs; intros H1 H2. now rewrite forallb_app, H1, H2.
Qed.

Lemma plain_logs_logs_only t : plain_logs t -> logs_only t.
Proof.
  unfold plain_logs; intros H ev Hin.
  rewrite forallb_forall in H. specialize (H ev Hin).
  destruct ev; try discriminate. eauto.
Qed.

Lemma plain_logs_no_summary t : plain_logs t -> no_summary t.
Proof.
  unfold plain_logs, no_summary; rewrite !forallb_forall.
  intros H ev Hin. specialize (H ev Hin).
  destruct ev as [lvl m| | |]; try discriminate. now destruct m.
Qed.

Lemma plain_logs_poll_cycles t : plain_logs t -> poll_cycles t = 0%nat.
Proof.
  unfold plain_logs, poll_cycles.
  induction t as [|ev t IH]; simpl; [reflexivity|].
  intros H; apply andb_true_iff in H; destruct H as (Hev & Ht).
  destruct ev; try discriminate; simpl; auto.
Qed.

Lemma no_summary_app t1 t2 :
  no_summary (t1 ++ t2) <-> no_summary t1 /\ no_summary t2.
Proof. unfold no_summary. now rewrite forallb_app, andb_true_iff. Qed.

Lemma poll_cycles_app t1 t2 :
  poll_cycles (t1 ++ t2) = (poll_cycles t1 + poll_cycles t2)%nat.
Proof. unfold poll_cycles. now rewrite filter_app, length_app. Qed.

Lemma logger_debug_plain debug m :
  (forall s, m <> MTable s) -> plain_logs (trace_of (logger_debug debug m)).
Proof.
  intros Hm. destruct debug; [|reflexivity].
  unfold plain_logs; simpl. destruct m; try reflexivity.
  now destruct (Hm table).
Qed.

Lemma for_each_plain {A} (l : list A) (body : A -> M unit) :
  (forall x, result_of (body x) = Ok tt) ->
  (forall x, plain_logs (trace_of (body x))) ->
  plain_logs (trace_of (for_each l body)).
Proof.
  intros Hr Ht; induction l as [|x l IH]; simpl; [reflexivity|].
  rewrite (bind_trace _ _ tt (Hr x)).
  apply plain_logs_app; auto.
Qed.

Lemma for_each_debug_trace {A} debug (f : A -> message) (l : list A) :
  trace_of (for_each l (fun x => logger_debug debug (f x))) =
  if debug then map (fun x => Log DEBUG (f x)) l else [].
Proof.
  induction l as [|x l IH]; simpl; [now destruct debug|].
  rewrite (bind_trace _ _ tt) by apply logger_debug_result.
  rewrite IH. now destruct debug.
Qed.

(** ** De-duplication *)

(** The stable sort keeps the elements and puts a largest id first. *)

Lemma insert_desc_In x s y : In y (insert_desc x s) <-> y = x \/ In y s.
Proof.
  induction s as [|z s IH]; simpl.
  - intuition.
  - destruct (id x <? id z); simpl; rewrite ?IH; intuition.
Qed.

Lemma sort_by_id_desc_In runs y : In y (sort_by_id_desc runs) <-> In y runs.
Proof.
  induction runs as [|x runs IH]; simpl; [tauto|].
  rewrite insert_desc_In, IH; intuition.
Qed.

Lemma insert_desc_head x s : head_is_max s -> head_is_max (insert_desc x s).
Proof.
  destruct s as [|z s]; simpl.
  - intros _ y [->|[]]; lia.
  - intros Hmax. destruct (id x <? id z) eqn:Hlt; simpl.
    + apply Z.ltb_lt in Hlt.
      intros y [->|Hy]; [lia|].
      apply insert_desc_In in Hy. destruct Hy as [->|Hy]; [lia|].
      apply Hmax; now right.
    + apply Z.ltb_ge in Hlt.
      intros y [->|Hy]; [lia|].
      specialize (Hmax y Hy); lia.
Qed.

Lemma sort_by_id_desc_head runs : head_is_max (sort_by_id_desc runs).
Proof.
  induction runs as [|x runs IH]; simpl; [exact I|].
  now apply insert_desc_head.
Qed.

Lemma sort_by_id_desc_nil runs : sort_by_id_desc runs = [] -> runs = [].
Proof.
  destruct runs as [|x runs]; [reflexivity|].
  intros Hs. assert (Hin : In x (sort_by_id_desc (x :: runs)))
    by (apply sort_by_id_desc_In; now left).
  rewrite Hs in Hin; destruct Hin.
Qed.

Lemma group_of_append k groups r :
  group_of k (groups_append groups r) =
  if String.eqb (name r) k then group_of k groups ++ [r]
  else group_of k groups.
Proof.
  unfold group_of.
  induction groups as [|[k0 v0] groups IH]; simpl.
  - now destruct (String.eqb (name r) k).
  - destruct (String.eqb k0 (name r)) eqn:E0; simpl.
    + apply String.eqb_eq in E0; subst k0.
      now destruct (String.eqb (name r) k).
    + destruct (String.eqb k0 k) eqn:E1; simpl; [|exact IH].
      apply String.eqb_eq in E1; subst k0. now rewrite String.eqb_sym, E0.
Qed.

Lemma keys_append k groups r :
  In k (map fst (groups_append groups r)) <->
  In k (map fst groups) \/ k = name r.
Proof.
  induction groups as [|[k0 v0] groups IH]; simpl.
  - intuition.
  - destruct (String.eqb k0 (name r)) eqn:E0; simpl.
    + apply String.eqb_eq in E0; subst k0. intuition.
    + rewrite IH. intuition.
Qed.

Lemma keys_append_NoDup groups r :
  NoDup (map fst groups) -> NoDup (map fst (groups_append groups r)).
Proof.
  induction groups as [|[k0 v0] groups IH]; simpl; intros Hnd.
  - constructor; [intros []|constructor].
  - destruct (String.eqb k0 (name r)) eqn:E0; simpl; [exact Hnd|].
    inversion Hnd as [|? ? Hnotin Hnd']; subst.
    constructor; [|now apply IH].
    rewrite keys_append. intros [Hin| ->]; [now apply Hnotin|].
    now rewrite String.eqb_refl in E0.
Qed.

Lemma fold_groups_spec check_runs groups :
  NoDup (map fst groups) ->
  let groups' := fold_left groups_append check_runs groups in
  NoDup (map fst groups') /\
  (forall k, In k (map fst groups') <->
             In k (map fst groups) \/ In k (map name check_runs)) /\
  (forall k, group_of k groups' =
             group_of k groups ++ filter (has_name k) check_runs).
Proof.
  revert groups.
  induction check_runs as [|r check_runs IH]; simpl; intros groups Hnd.
  - split; [exact Hnd|]. split; intros k; [tauto|now rewrite app_nil_r].
  - destruct (IH (groups_append groups r) (keys_append_NoDup _ r Hnd))
      as (Hnd' & Hkeys & Hgrp).
    split; [exact Hnd'|]. split; intros k.
    + rewrite Hkeys, keys_append. intuition.
    + rewrite Hgrp, group_of_append. unfold has_name at 2.
      destruct (String.eqb (name r) k); [now rewrite <- app_assoc|reflexivity].
Qed.

Lemma group_of_In k v groups :
  NoDup (map fst groups) -> In (k, v) groups -> group_of k groups = v.
Proof.
  unfold group_of.
  induction groups as [|[k0 v0] groups IH]; simpl; intros Hnd Hin; [tauto|].
  inversion Hnd as [|? ? Hnotin Hnd']; subst.
  destruct Hin as [Heq|Hin].
  - inversion Heq; subst. now rewrite String.eqb_refl.
  - destruct (String.eqb k0 k) eqn:E; [|now apply IH].
    apply String.eqb_eq in E; subst k0.
    exfalso; apply Hnotin. now apply (in_map fst) in Hin.
Qed.

(** Each group of [group_by_name] is the sub-list of the runs of its name,
    and there is one group per name of the input. *)
Lemma group_by_name_spec check_runs :
  NoDup (map fst (group_by_name check_runs)) /\
  (forall k, In k (map fst (group_by_name check_runs)) <->
             In k (map name check_runs)) /\
  (forall k v, In (k, v) (group_by_name check_runs) ->
               v = filter (has_name k) check_runs /\ v <> []).
Proof.
  destruct (fold_groups_spec check_runs [] (NoDup_nil _))
    as (Hnd & Hkeys & Hgrp).
  fold (group_by_name check_runs) in Hnd, Hkeys, Hgrp.
  split; [exact Hnd|]. split.
  - intros k; rewrite Hkeys; simpl; tauto.
  - intros k v Hin.
    assert (Hv : v = filter (has_name k) check_runs).
    { rewrite <- (group_of_In k v _ Hnd Hin), Hgrp. reflexivity. }
    split; [exact Hv|].
    assert (Hk : In k (map name check_runs)).
    { apply (in_map fst) in Hin. apply Hkeys in Hin.
      destruct Hin as [[]|Hin]; exact Hin. }
    apply in_map_iff in Hk. destruct Hk as (r & Hname & Hr).
    intros Hnil. rewrite Hnil in Hv.
    assert (Hr' : In r (filter (has_name k) check_runs)).
    { apply filter_In; split; [exact Hr|].
      unfold has_name. now apply String.eqb_eq. }
    rewrite <- Hv in Hr'. destruct Hr'.
Qed.

Lemma collect_latest_spec groups acc :
  (forall k v, In (k, v) groups -> v <> []) ->
  collect_latest groups acc = ret (acc ++ flat_map pick_latest groups).
Proof.
  revert acc.
  induction groups as [|[k v] groups IH]; simpl; intros acc Hne.
  - now rewrite app_nil_r.
  - unfold pick_latest at 1; simpl.
    destruct (sort_by_id_desc v) as [|r0 rest] eqn:Hs.
    + apply sort_by_id_desc_nil in Hs.
      exfalso; apply (Hne k v); auto.
    + rewrite IH by (intros k' v' Hin; apply (Hne k' v'); auto).
      now rewrite <- app_assoc.
Qed.

Lemma collect_latest_groups check_runs :
  collect_latest (group_by_name check_runs) [] =
  ret (latest_runs_of check_runs).
Proof.
  rewrite collect_latest_spec; [reflexivity|].
  intros k v Hin. now apply (group_by_name_spec check_runs) in Hin.
Qed.

(** [reduce_to_latest_runs] never raises; it returns [latest_runs_of] and
    writes nothing but log records. *)
Lemma reduce_to_latest_runs_result debug check_runs :
  result_of (reduce_to_latest_runs debug check_runs) =
  Ok (latest_runs_of check_runs).
Proof.
  unfold reduce_to_latest_runs.
  rewrite (bind_result _ _ tt) by apply logger_debug_result.
  rewrite (bind_result _ _ tt) by apply logger_debug_result.
  rewrite collect_latest_groups.
  rewrite (bind_result _ _ (latest_runs_of check_runs)) by reflexivity.
  rewrite (bind_result _ _ tt) by apply logger_debug_result.
  rewrite (bind_result _ _ tt)
    by (apply for_each_result; intros; apply logger_debug_result).
  reflexivity.
Qed.

Lemma pick_latest_In check_runs r :
  In r (latest_runs_of check_runs) <->
  exists k v rest, In (k, v) (group_by_name check_runs) /\
                   sort_by_id_desc v = r :: rest.
Proof.
  unfold latest_runs_of. rewrite in_flat_map. split.
  - intros ([k v] & Hin & Hr). unfold pick_latest in Hr; simpl in Hr.
    destruct (sort_by_id_desc v) as [|r0 rest] eqn:Hs; [destruct Hr|].
    destruct Hr as [<-|[]]. now exists k, v, rest.
  - intros (k & v & rest & Hin & Hs). exists (k, v). split; [exact Hin|].
    unfold pick_latest; simpl. rewrite Hs. now left.
Qed.

(** A kept run is a run of the input, and no run of the input with the
    same name has a larger id. *)
Lemma latest_runs_of_max check_runs r :
  In r (latest_runs_of check_runs) ->
  In r check_runs /\
  forall r', In r' check_runs -> name r' = name r -> id r' <= id r.
Proof.
  intros Hr. apply pick_latest_In in Hr.
  destruct Hr as (k & v & rest & Hin & Hs).
  destruct (proj2 (proj2 (group_by_name_spec check_runs)) k v Hin)
    as (Hv & _).
  assert (Hrv : In r v).
  { apply sort_by_id_desc_In. rewrite Hs. now left. }
  assert (Hrk : In r check_runs /\ name r = k).
  { rewrite Hv in Hrv. apply filter_In in Hrv. destruct Hrv as (? & Hn).
    split; [assumption|]. now apply String.eqb_eq in Hn. }
  destruct Hrk as (Hrin & Hname). split; [exact Hrin|].
  intros r' Hr' Hsame.
  assert (Hr'v : In r' v).
  { rewrite Hv. apply filter_In. split; [exact Hr'|].
    unfold has_name. apply String.eqb_eq. congruence. }
  pose proof (sort_by_id_desc_head v) as Hmax.
  rewrite Hs in Hmax. apply Hmax.
  rewrite <- Hs. now apply sort_by_id_desc_In.
Qed.

Lemma latest_names groups :
  (forall k v, In (k, v) groups ->
               v <> [] /\ forall r, In r v -> name r = k) ->
  map name (flat_map pick_latest groups) = map fst groups.
Proof.
  induction groups as [|[k v] groups IH]; simpl; intros Hg; [reflexivity|].
  rewrite map_app, IH by (intros k' v' Hin; apply Hg; now right).
  destruct (Hg k v (or_introl eq_refl)) as (Hne & Hnames).
  unfold pick_latest; simpl.
  destruct (sort_by_id_desc v) as [|r0 rest] eqn:Hs.
  - now apply sort_by_id_desc_nil in Hs.
  - simpl. f_equal. apply Hnames.
    apply sort_by_id_desc_In. rewrite Hs. now left.
Qed.

Lemma latest_runs_of_names check_runs :
  map name (latest_runs_of check_runs) = map fst (group_by_name check_runs).
Proof.
  apply latest_names. intros k v Hin.
  destruct (proj2 (proj2 (group_by_name_spec check_runs)) k v Hin)
    as (Hv & Hne).
  split; [exact Hne|].
  intros r Hr. rewrite Hv in Hr. apply filter_In in Hr.
  now apply String.eqb_eq.
Qed.

Lemma latest_runs_of_NoDup check_runs :
  NoDup (map name (latest_runs_of check_runs)).
Proof.
  rewrite latest_runs_of_names. apply group_by_name_spec.
Qed.

(** C3. For every input list of check runs, the output of
    [reduce_to_latest_runs] holds exactly one run per distinct name of the
    input (no name twice, and the names of the output are the names of the
    input); each run of the output is a run of the input whose id is the
    maximum among the input runs of its name; and the empty input gives
    the empty output.  The function returns for every input. *)
Theorem reduce_to_latest_runs_correct :
  (forall debug, result_of (reduce_to_latest_runs debug []) = Ok []) /\
  forall debug check_runs,
  exists latest_runs,
    result_of (reduce_to_latest_runs debug check_runs) = Ok latest_runs /\
    NoDup (map name latest_runs) /\
    (forall k, In k (map name latest_runs) <-> In k (map name check_runs)) /\
    (forall r, In r latest_runs ->
       In r check_runs /\
       forall r', In r' check_runs -> name r' = name r -> id r' <= id r).
Proof.
  split; [intros debug; apply reduce_to_latest_runs_result|].
  intros debug check_runs. exists (latest_runs_of check_runs).
  split; [apply reduce_to_latest_runs_result|].
  split; [apply latest_runs_of_NoDup|]. split.
  - intros k. rewrite latest_runs_of_names. apply group_by_name_spec.
  - apply latest_runs_of_max.
Qed.

(** The example of the specification: A(1,X), B(5,X), C(3,Y) reduce to
    B and C. *)
Example reduce_to_latest_runs_ABC :
  result_of
    (reduce_to_latest_runs false
       [mkCheckRun 1 "X" "completed" (Some "success");
        mkCheckRun 5 "X" "queued" None;
        mkCheckRun 3 "Y" "completed" (Some "failure")]) =
  Ok [mkCheckRun 5 "X" "queued" None;
      mkCheckRun 3 "Y" "completed" (Some "failure")].
Proof. reflexivity. Qed.

(** ** One poll *)

Lemma filter_and_log_by_status_result debug runs statuses color verb marker :
  result_of
    (filter_and_log_by_status debug runs statuses color verb marker) =
  Ok (filter (fun _run => str_in (status _run) statuses) runs).
Proof.
  unfold filter_and_log_by_status.
  rewrite (bind_result _ _ tt) by apply logger_info_result.
  rewrite (bind_result _ _ tt)
    by (apply for_each_result; intros; apply logger_debug_result).
  reflexivity.
Qed.

Lemma filter_and_log_by_status_trace debug runs statuses color verb marker :
  exists items,
    trace_of
      (filter_and_log_by_status debug runs statuses color verb marker) =
    Log INFO
      (MBucketCount color verb
         (List.length
            (filter (fun _run => str_in (status _run) statuses) runs)))
    :: items /\ plain_logs items.
Proof.
  unfold filter_and_log_by_status.
  rewrite (bind_trace _ _ tt) by apply logger_info_result.
  rewrite (bind_trace _ _ tt)
    by (apply for_each_result; intros; apply logger_debug_result).
  simpl. eexists; split; [reflexivity|].
  rewrite app_nil_r. apply for_each_plain; intros.
  - apply logger_debug_result.
  - apply logger_debug_plain; discriminate.
Qed.

Lemma filter_and_log_by_conclusion_result
      debug complete conclusions color verb marker :
  result_of
    (filter_and_log_by_conclusion debug complete conclusions color verb
       marker) =
  Ok (with_conclusion conclusions complete).
Proof.
  unfold filter_and_log_by_conclusion.
  rewrite (bind_result _ _ tt) by apply logger_info_result.
  rewrite (bind_result _ _ tt)
    by (apply for_each_result; intros; apply logger_debug_result).
  reflexivity.
Qed.

Lemma filter_and_log_by_conclusion_trace
      debug complete conclusions color verb marker :
  exists items,
    trace_of
      (filter_and_log_by_conclusion debug complete conclusions color verb
         marker) =
    Log INFO
      (MBucketCount color verb
         (List.length (with_conclusion conclusions complete)))
    :: items /\ plain_logs items.
Proof.
  unfold filter_and_log_by_conclusion.
  rewrite (bind_trace _ _ tt) by apply logger_info_result.
  rewrite (bind_trace _ _ tt)
    by (apply for_each_result; intros; apply logger_debug_result).
  simpl. eexists; split; [reflexivity|].
  rewrite app_nil_r. apply for_each_plain; intros.
  - apply logger_debug_result.
  - apply logger_debug_plain; discriminate.
Qed.

Lemma reduce_to_latest_runs_plain debug check_runs :
  plain_logs (trace_of (reduce_to_latest_runs debug check_runs)).
Proof.
  unfold reduce_to_latest_runs.
  rewrite (bind_trace _ _ tt) by apply logger_debug_result.
  rewrite (bind_trace _ _ tt) by apply logger_debug_result.
  rewrite collect_latest_groups.
  rewrite (bind_trace _ _ (latest_runs_of check_runs)) by reflexivity.
  rewrite (bind_trace _ _ tt) by apply logger_debug_result.
  rewrite (bind_trace _ _ tt)
    by (apply for_each_result; intros; apply logger_debug_result).
  repeat apply plain_logs_app;
    try (apply logger_debug_plain; discriminate); try reflexivity.
  apply for_each_plain; intros;
    [apply logger_debug_result | apply logger_debug_plain; discriminate].
Qed.

Section PollVaultFacts.
Variable w : World.
Variable debug exhaustive : bool.
Variable interval : Z.

Let decide' := decide w debug exhaustive interval.

(** The decision in closed form: the order of the three tests. *)
Lemma decide_result latest_runs _runs incomplete failed_runs :
  result_of (decide' latest_runs _runs incomplete failed_runs) =
  if nonempty failed_runs && negb exhaustive
  then Raise (PyException bail_out)
  else if nonempty incomplete then Raise (Enforcer still_waiting)
  else if nonempty failed_runs then Raise (PyException bail_out)
  else Ok _runs.
Proof.
  unfold decide', decide, log_summary.
  destruct failed_runs, incomplete, exhaustive, debug,
    (GITHUB_STEP_SUMMARY w) as [[|ch path]|]; reflexivity.
Qed.

(** The summary is written exactly when the poll ends in failure, and
    then last. *)
Lemma decide_trace latest_runs _runs incomplete failed_runs :
  match result_of (decide' latest_runs _runs incomplete failed_runs) with
  | Raise (PyException _) =>
      exists pre,
        trace_of (decide' latest_runs _runs incomplete failed_runs) =
        pre ++ trace_of
                 (log_summary debug (GITHUB_STEP_SUMMARY w) latest_runs)
        /\ plain_logs pre
  | _ => plain_logs
           (trace_of (decide' latest_runs _runs incomplete failed_runs))
  end.
Proof.
  unfold decide', decide, log_summary.
  destruct failed_runs as [|f failed_runs], incomplete as [|i incomplete],
    exhaustive, debug, (GITHUB_STEP_SUMMARY w) as [[|ch path]|];
    cbn -[summary_table]; try reflexivity;
    (eexists [_]; split; reflexivity).
Qed.

Variable user_ignore : list (option string).

Let poll_vault' := poll_vault w debug exhaustive interval user_ignore.

Lemma fetch_check_runs_ok n check_runs :
  get_check_runs w n = inl check_runs ->
  fetch_check_runs w n = ([Api GetCheckRuns], Ok check_runs).
Proof. unfold fetch_check_runs; intros ->; reflexivity. Qed.

Lemma fetch_check_runs_error n code :
  get_check_runs w n = inr code ->
  fetch_check_runs w n = ([Api GetCheckRuns], Raise (GithubException code)).
Proof. unfold fetch_check_runs; intros ->; reflexivity. Qed.

(** A poll whose fetch fails re-raises the error of the client, after
    one fetch and nothing but log records. *)
Lemma poll_vault_fetch_error n code :
  get_check_runs w n = inr code ->
  result_of (poll_vault' n) = Raise (GithubException code) /\
  no_summary (trace_of (poll_vault' n)) /\
  poll_cycles (trace_of (poll_vault' n)) = 1%nat.
Proof.
  intros Hget. unfold poll_vault', poll_vault.
  rewrite (fetch_check_runs_error _ _ Hget).
  destruct debug; cbn; repeat split; reflexivity.
Qed.

Ltac step_result a tac :=
  rewrite (bind_result _ _ a) by tac; cbv beta zeta.
Ltac step_trace a tac :=
  rewrite (bind_trace _ _ a) by tac; cbv beta zeta.
Ltac for_each_logs :=
  apply for_each_result; intros; apply logger_debug_result.

Lemma poll_vault_result n check_runs :
  get_check_runs w n = inl check_runs ->
  result_of (poll_vault' n) =
  result_of
    (decide' (latest_runs_of check_runs) (runs_of user_ignore check_runs)
       (incomplete (classify user_ignore check_runs))
       (failed (classify user_ignore check_runs))).
Proof.
  intros Hget. unfold poll_vault', poll_vault.
  step_result tt ltac:(apply logger_debug_result).
  step_result tt ltac:(apply logger_info_result).
  step_result tt ltac:(apply logger_info_result).
  step_result check_runs
    ltac:(rewrite (fetch_check_runs_ok _ _ Hget); reflexivity).
  step_result tt ltac:(apply logger_debug_result).
  step_result tt ltac:(for_each_logs).
  step_result (latest_runs_of check_runs)
    ltac:(apply reduce_to_latest_runs_result).
  rewrite (bind_result _ _ _ (filter_and_log_by_status_result _ _ _ _ _ _)).
  step_result tt ltac:(apply logger_info_result).
  rewrite (bind_result _ _ _
             (filter_and_log_by_conclusion_result _ _ _ _ _ _)).
  rewrite (bind_result _ _ _
             (filter_and_log_by_conclusion_result _ _ _ _ _ _)).
  rewrite (bind_result _ _ _
             (filter_and_log_by_conclusion_result _ _ _ _ _ _)).
  reflexivity.
Qed.

Lemma plain_logs_cons lvl m items :
  (forall s, m <> MTable s) -> plain_logs items ->
  plain_logs (Log lvl m :: items).
Proof.
  unfold plain_logs; simpl; intros Hm ->.
  destruct m; try reflexivity. now destruct (Hm table).
Qed.

Ltac plain_piece :=
  first
    [ reflexivity
    | assumption
    | apply logger_debug_plain; discriminate
    | apply reduce_to_latest_runs_plain
    | apply plain_logs_cons; [discriminate | assumption]
    | apply for_each_plain; intros;
      [apply logger_debug_result | apply logger_debug_plain; discriminate]
    ].

Ltac in_trace :=
  lazymatch goal with
  | |- In _ (_ ++ _) => apply in_or_app; ((left; in_trace) + (right; in_trace))
  | |- In _ (_ :: _) => (left; reflexivity) + (right; in_trace)
  end.

(** What a poll writes before it decides: one fetch and log records,
    among them the size of [complete] and of each bucket. *)
Lemma poll_vault_trace n check_runs :
  get_check_runs w n = inl check_runs ->
  exists before after,
    trace_of (poll_vault' n) =
    (before ++ Api GetCheckRuns :: after) ++
    trace_of
      (decide' (latest_runs_of check_runs) (runs_of user_ignore check_runs)
         (incomplete (classify user_ignore check_runs))
         (failed (classify user_ignore check_runs))) /\
    plain_logs before /\ plain_logs after /\
    In (Log INFO
          (MTotalCompletion
             (List.length (complete_of user_ignore check_runs)))) after /\
    In (Log INFO
          (MBucketCount BColors.Teal "Waiting on completion"
             (List.length (incomplete (classify user_ignore check_runs)))))
       after /\
    In (Log INFO
          (MBucketCount BColors.Grey "Ignored completion"
             (List.length (ignored (classify user_ignore check_runs)))))
       after /\
    In (Log INFO
          (MBucketCount BColors.Green "Celebrated completion"
             (List.length (succeeded (classify user_ignore check_runs)))))
       after /\
    In (Log INFO
          (MBucketCount BColors.Red "Mourned failure"
             (List.length (failed (classify user_ignore check_runs)))))
       after.
Proof.
  intros Hget. unfold poll_vault', poll_vault.
  step_trace tt ltac:(apply logger_debug_result).
  step_trace tt ltac:(apply logger_info_result).
  step_trace tt ltac:(apply logger_info_result).
  step_trace check_runs
    ltac:(rewrite (fetch_check_runs_ok _ _ Hget); reflexivity).
  rewrite (fetch_check_runs_ok _ _ Hget).
  step_trace tt ltac:(apply logger_debug_result).
  step_trace tt ltac:(for_each_logs).
  step_trace (latest_runs_of check_runs)
    ltac:(apply reduce_to_latest_runs_result).
  rewrite (bind_trace _ _ _ (filter_and_log_by_status_result _ _ _ _ _ _)).
  step_trace tt ltac:(apply logger_info_result).
  rewrite (bind_trace _ _ _
             (filter_and_log_by_conclusion_result _ _ _ _ _ _)).
  rewrite (bind_trace _ _ _
             (filter_and_log_by_conclusion_result _ _ _ _ _ _)).
  rewrite (bind_trace _ _ _
             (filter_and_log_by_conclusion_result _ _ _ _ _ _)).
  destruct (filter_and_log_by_status_trace debug
              (filter (not_ignored user_ignore)
                 (latest_runs_of check_runs))
              Status.incomplete BColors.Teal "Waiting on completion" "")
    as (i1 & -> & Hi1).
  fold (runs_of user_ignore check_runs).
  fold (complete_of user_ignore check_runs).
  destruct (filter_and_log_by_conclusion_trace debug
              (complete_of user_ignore check_runs) Conclusion.ignored
              BColors.Grey "Ignored completion" "-") as (i2 & -> & Hi2).
  destruct (filter_and_log_by_conclusion_trace debug
              (complete_of user_ignore check_runs) Conclusion.succeeded
              BColors.Green "Celebrated completion" check_mark)
    as (i3 & -> & Hi3).
  destruct (filter_and_log_by_conclusion_trace debug
              (complete_of user_ignore check_runs) Conclusion.fail
              BColors.Red "Mourned failure" "X") as (i4 & -> & Hi4).
  pose proof (logger_debug_plain debug MStatistics
                ltac:(discriminate)) as H1.
  assert (H5 : plain_logs
                 (trace_of
                    (logger_debug debug (MText "Logging All Checks"))))
    by plain_piece.
  assert (H6 : plain_logs
                 (trace_of
                    (for_each check_runs
                       (fun run => logger_debug debug (MRunState run)))))
    by plain_piece.
  pose proof (reduce_to_latest_runs_plain debug check_runs) as H7.
  set (t1 := trace_of (logger_debug debug MStatistics)) in *.
  set (t5 := trace_of (logger_debug debug (MText "Logging All Checks")))
    in *.
  set (t6 := trace_of (for_each check_runs _)) in *.
  set (t7 := trace_of (reduce_to_latest_runs debug check_runs)) in *.
  clearbody t1 t5 t6 t7.
  cbn [trace_of fst logger_info tell app].
  unfold decide', classify; cbn [incomplete ignored succeeded failed].
  set (c1 := Log INFO (MBucketCount BColors.Teal _ _)).
  set (c2 := Log INFO (MBucketCount BColors.Grey _ _)).
  set (c3 := Log INFO (MBucketCount BColors.Green _ _)).
  set (c4 := Log INFO (MBucketCount BColors.Red _ _)).
  set (tot := Log INFO (MTotalCompletion _)).
  exists (t1 ++ [Log INFO MAttemptBanner;
                 Log INFO (MText "GitHub: Fetching Check Runs")]).
  exists (t5 ++ t6 ++ t7 ++ (c1 :: i1) ++ (tot :: c2 :: i2) ++ (c3 :: i3)
          ++ (c4 :: i4)).
  split.
  { repeat (rewrite <- app_assoc; cbn [app]). reflexivity. }
  split.
  { apply plain_logs_app; [assumption | reflexivity]. }
  split.
  { repeat apply plain_logs_app; try assumption;
      subst c1 c2 c3 c4 tot;
      repeat (apply plain_logs_cons; [discriminate|]); assumption. }
  repeat split; in_trace.
Qed.
End PollVaultFacts.

(** ** The decision *)

(** C1. For every classified batch whose failed bucket is not empty, the
    poll without [--exhaustive] decides Failure at once, whatever the
    incomplete bucket holds; the same batch under [--exhaustive] with a
    non-empty incomplete bucket decides Retry. *)
Theorem fail_fast_precedence w debug interval latest_runs _runs
        (batch : ClassifiedBatch) :
  failed batch <> [] ->
  decision
    (result_of
       (decide w debug false interval latest_runs _runs (incomplete batch)
          (failed batch))) = Some Failure /\
  (incomplete batch <> [] ->
   decision
     (result_of
        (decide w debug true interval latest_runs _runs (incomplete batch)
           (failed batch))) = Some Retry).
Proof.
  intros Hfailed. rewrite !decide_result.
  destruct (failed batch) as [|f fs]; [contradiction|].
  split; [reflexivity|].
  intros Hinc. destruct (incomplete batch); [contradiction|reflexivity].
Qed.

(** C2. For every classified batch whose incomplete bucket is empty, the
    poll decides Failure when the failed bucket is not empty and Success
    when it is empty, in either mode and whatever the ignored and the
    succeeded buckets hold. *)
Theorem decide_all_complete w debug exhaustive interval latest_runs _runs
        (batch : ClassifiedBatch) :
  incomplete batch = [] ->
  decision
    (result_of
       (decide w debug exhaustive interval latest_runs _runs
          (incomplete batch) (failed batch))) =
  Some (if nonempty (failed batch) then Failure else Success).
Proof.
  intros ->. rewrite decide_result.
  destruct (failed batch), exhaustive; reflexivity.
Qed.

(** ** The name filter and the classification *)

Lemma str_in_In s l : str_in s l = true <-> In s l.
Proof.
  unfold str_in. rewrite existsb_exists. split.
  - intros (t & Hin & Heq). apply String.eqb_eq in Heq. now subst.
  - intros Hin. exists s. split; [exact Hin|apply String.eqb_refl].
Qed.

Lemma in_user_ignore_In s l : in_user_ignore s l = true <-> In (Some s) l.
Proof.
  unfold in_user_ignore. rewrite existsb_exists. split.
  - intros ([t|] & Hin & Heq); [|discriminate].
    apply String.eqb_eq in Heq. now subst.
  - intros Hin. exists (Some s). split; [exact Hin|apply String.eqb_refl].
Qed.

(** Every bucket is a part of [_runs]. *)
Lemma buckets_within_runs user_ignore check_runs r :
  In r (incomplete (classify user_ignore check_runs)) \/
  In r (ignored (classify user_ignore check_runs)) \/
  In r (succeeded (classify user_ignore check_runs)) \/
  In r (failed (classify user_ignore check_runs)) ->
  In r (runs_of user_ignore check_runs).
Proof.
  unfold classify, with_conclusion, complete_of; simpl.
  generalize (runs_of user_ignore check_runs) as runs. intros runs.
  intros [H|[H|[H|H]]]; repeat (apply filter_In in H; destruct H as (H & _));
    exact H.
Qed.

Lemma runs_of_not_ignored user_ignore check_runs r :
  In r (runs_of user_ignore check_runs) ->
  ~ In (Some (name r)) user_ignore.
Proof.
  unfold runs_of, not_ignored. intros H Hign.
  apply filter_In in H. destruct H as (_ & H).
  apply in_user_ignore_In in Hign. rewrite Hign in H. discriminate.
Qed.

Lemma append_name_In stripped own_name x :
  In x (append_name stripped own_name) <->
  x = own_name \/ exists s, In s stripped /\ x = Some s.
Proof.
  unfold append_name. rewrite in_app_iff, in_map_iff. simpl.
  split.
  - intros [(s & <- & Hs)|[<-|[]]]; eauto.
  - intros [->|(s & Hs & ->)]; eauto.
Qed.

(** C4. A run whose name is in the ignore list that [hello] builds, that
    is the value of [--name] or one of the comma-separated pieces of
    [--ignore] with its surrounding white space stripped, is in none of
    the four buckets, whatever its status and conclusion; so the run named
    by [--name] is neither incomplete nor failed. *)
Theorem ignored_names_never_classified
        (ignore : string) (own_name : option string)
        (check_runs : list CheckRun) (r : CheckRun) :
  own_name = Some (name r) \/
  (exists piece, In piece (split_comma ignore) /\ name r = strip piece) ->
  let user_ignore := append_name (map strip (split_comma ignore)) own_name in
  let batch := classify user_ignore check_runs in
  ~ In r (incomplete batch) /\ ~ In r (ignored batch) /\
  ~ In r (succeeded batch) /\ ~ In r (failed batch).
Proof.
  intros Hname user_ignore batch.
  assert (Hign : In (Some (name r)) user_ignore).
  { apply append_name_In. destruct Hname as [->|(piece & Hin & ->)].
    - now left.
    - right. exists (strip piece). split; [|reflexivity].
      now apply in_map. }
  assert (Hout : ~ In r (runs_of user_ignore check_runs)).
  { intros H. now apply runs_of_not_ignored in H. }
  repeat split; intros H; apply Hout;
    apply buckets_within_runs; subst batch; tauto.
Qed.

(** The three taxonomy lists share no conclusion. *)
Lemma taxonomy_disjoint (c : option string) :
  match opt_in c Conclusion.ignored, opt_in c Conclusion.succeeded,
        opt_in c Conclusion.fail with
  | true, false, false | false, true, false | false, false, true
  | false, false, false => True
  | _, _, _ => False
  end.
Proof.
  destruct c as [s|]; [|exact I].
  unfold opt_in, str_in, Conclusion.ignored, Conclusion.succeeded,
    Conclusion.fail.
  cbn [existsb].
  destruct (String.eqb_spec s Conclusion.neutral); [subst; exact I|].
  destruct (String.eqb_spec s Conclusion.skipped); [subst; exact I|].
  destruct (String.eqb_spec s Conclusion.success); [subst; exact I|].
  destruct (String.eqb_spec s Conclusion.action_required); [subst; exact I|].
  destruct (String.eqb_spec s Conclusion.cancelled); [subst; exact I|].
  destruct (String.eqb_spec s Conclusion.timed_out); [subst; exact I|].
  destruct (String.eqb_spec s Conclusion.failure); [subst; exact I|].
  destruct (String.eqb_spec s Conclusion.failed); [subst; exact I|].
  destruct (String.eqb_spec s Conclusion.stale); [subst; exact I|].
  destruct (String.eqb_spec s Conclusion.startup_failure); [subst; exact I|].
  exact I.
Qed.



(** What a poll writes about its buckets, piece by piece. *)













Lemma filter_none {A} (f : A -> bool) (l : list A) :
  (forall x, In x l -> f x = false) -> filter f l = [].
Proof.
  induction l as [|x l IH]; simpl; intros H; [reflexivity|].
  rewrite (H x (or_introl eq_refl)). apply IH. intros y Hy; apply H; now right.
Qed.

(** C10. When every run of [_runs] is completed with a conclusion that no
    taxonomy list names, the incomplete and the failed bucket are empty
    and the poll returns: the decision is Success. *)
Theorem unrecognized_conclusions_succeed
        w debug exhaustive interval user_ignore n check_runs :
  get_check_runs w n = inl check_runs ->
  (forall r, In r (runs_of user_ignore check_runs) ->
             status r = Status.completed /\
             recognized (conclusion r) = false) ->
  incomplete (classify user_ignore check_runs) = [] /\
  failed (classify user_ignore check_runs) = [] /\
  result_of (poll_vault w debug exhaustive interval user_ignore n) =
  Ok (runs_of user_ignore check_runs) /\
  decision
    (result_of (poll_vault w debug exhaustive interval user_ignore n)) =
  Some Success.
Proof.
  intros Hget Hall.
  assert (Hinc : incomplete (classify user_ignore check_runs) = []).
  { unfold classify; simpl. apply filter_none. intros r Hr.
    destruct (Hall r Hr) as (-> & _). reflexivity. }
  assert (Hfail : failed (classify user_ignore check_runs) = []).
  { unfold classify, with_conclusion; simpl. apply filter_none. intros r Hr.
    unfold complete_of in Hr. apply filter_In in Hr. destruct Hr as (Hr & _).
    destruct (Hall r Hr) as (_ & Hrec). unfold recognized in Hrec.
    apply orb_false_iff in Hrec. tauto. }
  assert (Hres : result_of
                   (poll_vault w debug exhaustive interval user_ignore n) =
                 Ok (runs_of user_ignore check_runs)).
  { rewrite (poll_vault_result _ _ _ _ _ _ _ Hget), decide_result.
    rewrite Hinc, Hfail. reflexivity. }
  repeat split; try assumption. now rewrite Hres.
Qed.

(** ** The retry loop *)

Section PollLoopFacts.
Variable w : World.
Variable debug exhaustive : bool.
Variable interval : Z.
Variable user_ignore : list (option string).

Let poll := poll_vault w debug exhaustive interval user_ignore.

Lemma decide_no_fetch latest_runs _runs incomplete failed_runs :
  poll_cycles
    (trace_of
       (decide w debug exhaustive interval latest_runs _runs incomplete
          failed_runs)) = 0%nat.
Proof.
  unfold decide, log_summary.
  destruct failed_runs, incomplete, exhaustive, debug,
    (GITHUB_STEP_SUMMARY w) as [[|ch path]|]; reflexivity.
Qed.

(** Every poll fetches exactly once. *)
Lemma poll_vault_cycles n : poll_cycles (trace_of (poll n)) = 1%nat.
Proof.
  unfold poll. destruct (get_check_runs w n) as [check_runs|code] eqn:Hget.
  - destruct (poll_vault_trace w debug exhaustive interval user_ignore n
                check_runs Hget) as (before & after & -> & Hb & Ha & _).
    rewrite !poll_cycles_app, decide_no_fetch.
    rewrite (plain_logs_poll_cycles _ Hb).
    change (Api GetCheckRuns :: after) with ([Api GetCheckRuns] ++ after).
    rewrite poll_cycles_app, (plain_logs_poll_cycles _ Ha). reflexivity.
  - now destruct (poll_vault_fetch_error w debug exhaustive interval
                    user_ignore n code Hget) as (_ & _ & Hc).
Qed.

(** A poll raises [Enforcer] only after a fetch that succeeded and left
    the incomplete bucket non-empty. *)
Lemma poll_vault_enforcer n e :
  result_of (poll n) = Raise e -> is_Enforcer e = true ->
  exists check_runs,
    get_check_runs w n = inl check_runs /\
    incomplete (classify user_ignore check_runs) <> [].
Proof.
  unfold poll. intros Hres He.
  destruct (get_check_runs w n) as [check_runs|code] eqn:Hget.
  - exists check_runs. split; [reflexivity|].
    rewrite (poll_vault_result _ _ _ _ _ _ _ Hget), decide_result in Hres.
    intros Hnil. rewrite Hnil in Hres.
    destruct (nonempty (failed (classify user_ignore check_runs))),
      exhaustive; simpl in Hres; inversion Hres; subst; simpl in He;
      discriminate.
  - destruct (poll_vault_fetch_error w debug exhaustive interval
                user_ignore n code Hget) as (Hr & _).
    rewrite Hr in Hres. inversion Hres; subst; simpl in He; discriminate.
Qed.

(** The summary of one poll: written last when the poll ends in failure,
    and not at all otherwise. *)
Lemma poll_vault_summary n :
  match result_of (poll n) with
  | Raise (PyException _) =>
      exists pre check_runs,
        get_check_runs w n = inl check_runs /\
        trace_of (poll n) =
        pre ++ trace_of
                 (log_summary debug (GITHUB_STEP_SUMMARY w)
                    (latest_runs_of check_runs)) /\
        no_summary pre
  | _ => no_summary (trace_of (poll n))
  end.
Proof.
  unfold poll. destruct (get_check_runs w n) as [check_runs|code] eqn:Hget.
  - destruct (poll_vault_trace w debug exhaustive interval user_ignore n
                check_runs Hget) as (before & after & Ht & Hb & Ha & _).
    rewrite Ht, (poll_vault_result _ _ _ _ _ _ _ Hget).
    assert (Hpre : no_summary (before ++ Api GetCheckRuns :: after)).
    { apply no_summary_app. split; [now apply plain_logs_no_summary|].
      change (Api GetCheckRuns :: after) with ([Api GetCheckRuns] ++ after).
      apply no_summary_app. split; [reflexivity|].
      now apply plain_logs_no_summary. }
    pose proof (decide_trace w debug exhaustive interval
                  (latest_runs_of check_runs)
                  (runs_of user_ignore check_runs)
                  (incomplete (classify user_ignore check_runs))
                  (failed (classify user_ignore check_runs))) as Hd.
    destruct (result_of (decide _ _ _ _ _ _ _ _)) as [a|e|];
      try (apply no_summary_app; split;
           [exact Hpre | now apply plain_logs_no_summary]).
    destruct e;
      try (apply no_summary_app; split;
           [exact Hpre | now apply plain_logs_no_summary]).
    destruct Hd as (pre & -> & Hplain).
    exists ((before ++ Api GetCheckRuns :: after) ++ pre), check_runs.
    split; [reflexivity|]. split; [now rewrite app_assoc|].
    apply no_summary_app. split; [exact Hpre|].
    now apply plain_logs_no_summary.
  - destruct (poll_vault_fetch_error w debug exhaustive interval
                user_ignore n code Hget) as (-> & Hns & _).
    exact Hns.
Qed.

Variable timeout : Z.

Let loop := Tenacity.retrying timeout interval (attempt_millis w) poll.

(** One turn of the loop. *)
Lemma retrying_step fuel n began :
  loop (S fuel) n began =
  match poll n with
  | (t, Raise e) =>
      if negb (is_Enforcer e) then (t, Raise e)
      else if Tenacity.stop_after_delay timeout
                (began + Z.of_N (attempt_millis w n))
      then (t, Raise RetryError)
      else if interval <? 0 then (t, Raise ValueError)
      else
        let (t', r) :=
          loop fuel (S n)
            (began + Z.of_N (attempt_millis w n) + 1000 * interval) in
        (t ++ Sleep interval :: t', r)
  | other => other
  end.
Proof. reflexivity. Qed.

(** The summary over the whole loop: the attempts that are retried
    write none, so what the last attempt wrote is all there is. *)
Lemma retrying_summary fuel n began :
  match result_of (loop fuel n began) with
  | Raise (PyException _) =>
      exists pre m check_runs,
        get_check_runs w m = inl check_runs /\
        trace_of (loop fuel n began) =
        pre ++ trace_of
                 (log_summary debug (GITHUB_STEP_SUMMARY w)
                    (latest_runs_of check_runs)) /\
        no_summary pre
  | _ => no_summary (trace_of (loop fuel n began))
  end.
Proof.
  revert n began. induction fuel as [|fuel IH]; intros n began.
  - reflexivity.
  - rewrite retrying_step.
    pose proof (poll_vault_summary n) as Hp. fold poll in Hp.
    destruct (poll n) as [t r] eqn:E. cbn [result_of trace_of fst snd] in *.
    destruct r as [a|e|]; [exact Hp| |exact Hp].
    destruct (is_Enforcer e) eqn:He; cbn [negb].
    + destruct e; try discriminate He.
      destruct (Tenacity.stop_after_delay _ _); [exact Hp|].
      destruct (interval <? 0); [exact Hp|].
      specialize (IH (S n)
                     (began + Z.of_N (attempt_millis w n) + 1000 * interval)).
      destruct (loop fuel (S n) _) as [t' r'].
      cbn [result_of trace_of fst snd] in *.
      assert (Hsleep : forall u, no_summary u ->
                                 no_summary (t ++ Sleep interval :: u)).
      { intros u Hu. apply no_summary_app. split; [exact Hp|].
        change (Sleep interval :: u) with ([Sleep interval] ++ u).
        apply no_summary_app. split; [reflexivity|exact Hu]. }
      destruct r' as [a'|e'|]; try (now apply Hsleep).
      destruct e'; try (now apply Hsleep).
      destruct IH as (pre & m & check_runs & Hget & -> & Hpre).
      exists (t ++ Sleep interval :: pre), m, check_runs.
      split; [exact Hget|]. split; [|now apply Hsleep].
      now rewrite <- app_assoc.
    + destruct e; try discriminate He; try exact Hp.
      destruct Hp as (pre & check_runs & Hget & -> & Hpre).
      now exists pre, n, check_runs.
Qed.
End PollLoopFacts.

(** C6. In the retry loop only a poll that fetched the check runs and
    found the incomplete bucket non-empty is followed by another poll
    cycle: when the fetch of an attempt raises, the loop ends with that
    very attempt, raising the error of the client to its caller after a
    single fetch. *)
Theorem only_incomplete_retries
        w debug exhaustive interval timeout user_ignore fuel n began :
  let poll := poll_vault w debug exhaustive interval user_ignore in
  let run :=
    Tenacity.retrying timeout interval (attempt_millis w) poll (S fuel) n
      began in
  (forall code,
     get_check_runs w n = inr code ->
     run = poll n /\ result_of run = Raise (GithubException code) /\
     poll_cycles (trace_of run) = 1%nat) /\
  ((1 < poll_cycles (trace_of run))%nat ->
   exists check_runs,
     get_check_runs w n = inl check_runs /\
     incomplete (classify user_ignore check_runs) <> []).
Proof.
  intros poll run. subst run.
  rewrite (retrying_step w debug exhaustive interval user_ignore timeout).
  fold poll.
  pose proof (poll_vault_cycles w debug exhaustive interval user_ignore n)
    as Hcyc.
  pose proof (poll_vault_enforcer w debug exhaustive interval user_ignore n)
    as Henf.
  fold poll in Hcyc, Henf.
  split.
  - intros code Hget.
    destruct (poll_vault_fetch_error w debug exhaustive interval user_ignore
                n code Hget) as (Hres & _).
    fold poll in Hres.
    destruct (poll n) as [t r]. cbn [result_of trace_of fst snd] in *.
    subst r. cbn. auto.
  - destruct (poll n) as [t r]. cbn [result_of trace_of fst snd] in *.
    destruct r as [a|e|]; cbn [trace_of fst]; try lia.
    destruct (is_Enforcer e) eqn:He; cbn [negb trace_of fst]; [|lia].
    intros _. now apply (Henf e).
Qed.

Lemma log_summary_cases debug summary runs :
  trace_of (log_summary debug summary runs) =
  match summary with
  | Some (String ch path) =>
      [AppendFile (String ch path) (String.append (summary_table runs) nl)]
  | _ => if debug then [Log DEBUG (MTable (summary_table runs))] else []
  end.
Proof.
  unfold log_summary. destruct summary as [[|ch path]|], debug; reflexivity.
Qed.


(** A poll never leaves the model without an answer. *)
Lemma poll_vault_answers w debug exhaustive interval user_ignore n :
  result_of (poll_vault w debug exhaustive interval user_ignore n)
  <> OutOfFuel.
Proof.
  destruct (get_check_runs w n) as [check_runs|code] eqn:Hget.
  - rewrite (poll_vault_result _ _ _ _ _ _ _ Hget), decide_result.
    destruct (nonempty _ && negb exhaustive); [discriminate|].
    destruct (nonempty _); [discriminate|].
    destruct (nonempty _); discriminate.
  - destruct (poll_vault_fetch_error w debug exhaustive interval user_ignore
                n code Hget) as (-> & _).
    discriminate.
Qed.

(** The loop ends: with a positive interval every turn moves the clock on
    by at least the interval, so once the fuel covers the budget the loop
    answers. *)
Lemma retrying_terminates w debug exhaustive interval timeout user_ignore :
  0 < interval ->
  forall fuel n began,
    1000 * timeout <= began + Z.of_nat fuel * (1000 * interval) ->
    result_of
      (Tenacity.retrying timeout interval (attempt_millis w)
         (poll_vault w debug exhaustive interval user_ignore) (S fuel) n
         began) <> OutOfFuel.
Proof.
  intros Hpos fuel.
  induction fuel as [|fuel IH]; intros n began Hbudget;
    rewrite (retrying_step w debug exhaustive interval user_ignore timeout);
    pose proof (poll_vault_answers w debug exhaustive interval user_ignore n)
      as Hans;
    destruct (poll_vault w debug exhaustive interval user_ignore n)
      as [t r];
    cbn [result_of snd] in Hans;
    (destruct r as [a|e|]; [discriminate| |contradiction]);
    (destruct (negb (is_Enforcer e)); [discriminate|]);
    unfold Tenacity.stop_after_delay;
    destruct (1000 * timeout <=? began + Z.of_N (attempt_millis w n))
      eqn:Hstop; try discriminate;
    apply Z.leb_gt in Hstop.
  - lia.
  - destruct (interval <? 0); [discriminate|].
    specialize (IH (S n)
                   (began + Z.of_N (attempt_millis w n) + 1000 * interval)).
    destruct (Tenacity.retrying _ _ _ _ (S fuel) _ _) as [t' r'].
    cbn [result_of snd] in *. apply IH. lia.
Qed.

(** An error of the client in the second fetch: one retry, then the
    command logs the annotation and exits with code 1. *)
Example fetch_error_is_fatal :
  let w :=
    {| GITHUB_STEP_SUMMARY := None;
       lookup_error := fun _ => None;
       get_check_runs :=
         fun n => if (n =? 1)%nat then inl [run_deploy] else inr 502;
       attempt_millis := fun _ => 250%N |} in
  let run :=
    hello w 10 "token" "clowtown/pr-enforcer" "test" 10 25
      (Some "enforce-all-checks") (Some "label, CodeQL, bridgecrew") false
      false in
  result_of run = Raise (SystemExit 1) /\
  poll_cycles (trace_of run) = 2%nat /\
  last (trace_of run) (Sleep 0) = Log FATAL MAnnotation.
Proof. repeat split; vm_compute; reflexivity. Qed.

(** ** The time budget *)

Lemma poll_cycles_sleep seconds t :
  poll_cycles (Sleep seconds :: t) = poll_cycles t.
Proof. reflexivity. Qed.

Section AlwaysPending.
Variable w : World.
Variable debug exhaustive : bool.
Variable user_ignore : list (option string).

(** Every fetch succeeds and leaves the poll waiting: some run is
    incomplete, and no failed run ends the poll in fail-fast mode. *)
Hypothesis pending :
  forall n, exists check_runs,
    get_check_runs w n = inl check_runs /\
    incomplete (classify user_ignore check_runs) <> [] /\
    (exhaustive = true \/ failed (classify user_ignore check_runs) = []).

Let poll := poll_vault w debug exhaustive 10 user_ignore.
Let loop := Tenacity.retrying 25 10 (attempt_millis w) poll.

Lemma pending_poll n :
  exists t, poll n = (t, Raise (Enforcer still_waiting)) /\
            poll_cycles t = 1%nat.
Proof.
  destruct (pending n) as (check_runs & Hget & Hinc & Hff).
  pose proof (poll_vault_result w debug exhaustive 10 user_ignore n
                check_runs Hget) as Hres.
  pose proof (poll_vault_cycles w debug exhaustive 10 user_ignore n)
    as Hcyc.
  fold poll in Hres, Hcyc. rewrite decide_result in Hres.
  destruct (incomplete (classify user_ignore check_runs)) as [|i rest];
    [contradiction|].
  assert (Hfast : nonempty (failed (classify user_ignore check_runs))
                  && negb exhaustive = false).
  { destruct Hff as [->| ->]; [apply andb_false_r|reflexivity]. }
  rewrite Hfast in Hres. cbn [nonempty] in Hres.
  destruct (poll n) as [t r]. cbn [result_of trace_of fst snd] in *.
  exists t. now subst r.
Qed.

Lemma pending_step fuel n began :
  exists t, poll_cycles t = 1%nat /\
    loop (S fuel) n began =
    if 25000 <=? began + Z.of_N (attempt_millis w n)
    then (t, Raise RetryError)
    else
      let (t', r) :=
        loop fuel (S n) (began + Z.of_N (attempt_millis w n) + 10000) in
      (t ++ Sleep 10 :: t', r).
Proof.
  destruct (pending_poll n) as (t & Hp & Hc).
  exists t. split; [exact Hc|].
  unfold loop.
  rewrite (retrying_step w debug exhaustive 10 user_ignore 25).
  fold poll. rewrite Hp. reflexivity.
Qed.

(** With a budget of 25 s and an interval of 10 s the loop gives up
    after at most four polls. *)
Lemma pending_gives_up fuel :
  exists k,
    (1 <= k <= 4)%nat /\
    result_of (loop (4 + fuel) 1%nat 0) = Raise RetryError /\
    poll_cycles (trace_of (loop (4 + fuel) 1%nat 0)) = k /\
    began_at w 10 k < 25000 + 10000 /\
    25000 <= began_at w 10 k + Z.of_N (attempt_millis w k) /\
    (Z.of_N (attempt_millis w 1 + attempt_millis w 2 + attempt_millis w 3)
     < 5000 -> k = 4%nat).
Proof.
  cbn [Nat.add].
  destruct (pending_step (S (S (S fuel))) 1 0) as (t1 & Hc1 & ->).
  destruct (25000 <=? 0 + Z.of_N (attempt_millis w 1)) eqn:E1.
  { apply Z.leb_le in E1. exists 1%nat.
    cbn [result_of trace_of fst snd began_at]. repeat split; try lia. }
  apply Z.leb_gt in E1.
  destruct (pending_step (S (S fuel)) 2
              (0 + Z.of_N (attempt_millis w 1) + 10000))
    as (t2 & Hc2 & ->).
  destruct (25000 <=? 0 + Z.of_N (attempt_millis w 1) + 10000
                      + Z.of_N (attempt_millis w 2)) eqn:E2.
  { apply Z.leb_le in E2. exists 2%nat.
    cbn [result_of trace_of fst snd began_at].
    rewrite poll_cycles_app, poll_cycles_sleep, Hc1, Hc2.
    repeat split; try lia. }
  apply Z.leb_gt in E2.
  destruct (pending_step (S fuel) 3
              (0 + Z.of_N (attempt_millis w 1) + 10000
               + Z.of_N (attempt_millis w 2) + 10000))
    as (t3 & Hc3 & ->).
  destruct (25000 <=? 0 + Z.of_N (attempt_millis w 1) + 10000
                      + Z.of_N (attempt_millis w 2) + 10000
                      + Z.of_N (attempt_millis w 3)) eqn:E3.
  { apply Z.leb_le in E3. exists 3%nat.
    cbn [result_of trace_of fst snd began_at].
    rewrite !poll_cycles_app, !poll_cycles_sleep, !poll_cycles_app,
      !poll_cycles_sleep, Hc1, Hc2, Hc3.
    repeat split; try lia. }
  apply Z.leb_gt in E3.
  destruct (pending_step fuel 4
              (0 + Z.of_N (attempt_millis w 1) + 10000
               + Z.of_N (attempt_millis w 2) + 10000
               + Z.of_N (attempt_millis w 3) + 10000))
    as (t4 & Hc4 & ->).
  destruct (25000 <=? 0 + Z.of_N (attempt_millis w 1) + 10000
                      + Z.of_N (attempt_millis w 2) + 10000
                      + Z.of_N (attempt_millis w 3) + 10000
                      + Z.of_N (attempt_millis w 4)) eqn:E4.
  2:{ apply Z.leb_gt in E4. lia. }
  exists 4%nat.
  cbn [result_of trace_of fst snd began_at].
  rewrite !poll_cycles_app, !poll_cycles_sleep, !poll_cycles_app,
    !poll_cycles_sleep, !poll_cycles_app, !poll_cycles_sleep,
    Hc1, Hc2, Hc3, Hc4.
  repeat split; try lia.
Qed.
End AlwaysPending.

(** C8, as the code has it. With an interval of 10 s, a budget of 25 s and
    a source whose every fetch leaves the poll waiting, the loop polls at
    least once and at most four times and then gives up with
    [RetryError] (TimedOut); it polls four times when the first three
    attempts together take less than 5 s.  The last poll begins less than
    one interval after the budget is spent, and the budget is spent when
    it ends. *)
Theorem timeout_after_at_most_four_polls
        w debug exhaustive user_ignore fuel :
  (forall n, exists check_runs,
      get_check_runs w n = inl check_runs /\
      incomplete (classify user_ignore check_runs) <> [] /\
      (exhaustive = true \/ failed (classify user_ignore check_runs) = [])) ->
  let run :=
    poll_vault_retrying w (4 + fuel) 10 25 user_ignore exhaustive debug in
  exists k,
    (1 <= k <= 4)%nat /\
    result_of run = Raise RetryError /\
    poll_cycles (trace_of run) = k /\
    began_at w 10 k < 25000 + 10000 /\
    25000 <= began_at w 10 k + Z.of_N (attempt_millis w k) /\
    (Z.of_N (attempt_millis w 1 + attempt_millis w 2 + attempt_millis w 3)
     < 5000 -> k = 4%nat).
Proof.
  intros Hpending run. subst run. unfold poll_vault_retrying.
  exact (pending_gives_up w debug exhaustive user_ignore Hpending fuel).
Qed.

Lemma timeout_after_at_most_four_polls_witness :
  exists k,
    (1 <= k <= 4)%nat /\
    result_of
      (poll_vault_retrying (steady_world None [run_deploy] 250) (4 + 0) 10 25
         sample_ignore false false) = Raise RetryError /\
    poll_cycles
      (trace_of
         (poll_vault_retrying (steady_world None [run_deploy] 250) (4 + 0) 10
            25 sample_ignore false false)) = k /\
    began_at (steady_world None [run_deploy] 250) 10 k < 25000 + 10000 /\
    25000 <= began_at (steady_world None [run_deploy] 250) 10 k
             + Z.of_N (attempt_millis (steady_world None [run_deploy] 250) k)
    /\
    (Z.of_N
       (attempt_millis (steady_world None [run_deploy] 250) 1
        + attempt_millis (steady_world None [run_deploy] 250) 2
        + attempt_millis (steady_world None [run_deploy] 250) 3) < 5000 ->
     k = 4%nat).
Proof.
  apply (timeout_after_at_most_four_polls
           (steady_world None [run_deploy] 250) false false sample_ignore 0).
  intros n. exists [run_deploy].
  split; [reflexivity|]. split; [discriminate|]. right. reflexivity.
Defined.

(** C8 fails as stated: with attempts of a quarter of a second the polls
    begin at 0 s, 10.25 s, 20.5 s and 30.75 s, and the loop gives up after
    the fourth. *)
Lemma four_polls_before_timeout :
  result_of
    (poll_vault_retrying (steady_world None [run_build; run_deploy] 250) 10
       10 25 sample_ignore false false) = Raise RetryError /\
  poll_cycles
    (trace_of
       (poll_vault_retrying (steady_world None [run_build; run_deploy] 250)
          10 10 25 sample_ignore false false)) = 4%nat.
Proof. split; vm_compute; reflexivity. Qed.


(** The summary is written on failure: the same command with a failed
    run. *)
Example summary_on_failure :
  filter is_summary_event
    (trace_of
       (hello (steady_world (Some "summary.md") [run_build; run_lint] 250) 10
          "token" "clowtown/pr-enforcer" "test" 10 25
          (Some "enforce-all-checks") (Some "label, CodeQL, bridgecrew")
          false true)) =
  [AppendFile "summary.md"
     (String.append (summary_table [run_build; run_lint]) nl)].
Proof. vm_compute. reflexivity. Qed.

(** ** The command *)

(** C9. When [--ignore] is omitted, so that its value is [None], the
    command raises [AttributeError] while it builds the ignore list; until
    then it has written log records only: no call of the GitHub client, no
    fetch, no sleep. *)
Theorem ignore_omitted_raises
        w fuel token repository branch interval timeout own_name exhaustive
        debug :
  let run :=
    hello w fuel token repository branch interval timeout own_name None
      exhaustive debug in
  result_of run = Raise AttributeError /\
  logs_only (trace_of run) /\
  poll_cycles (trace_of run) = 0%nat.
Proof.
  intros run. subst run. unfold hello.
  destruct debug; cbn; (split; [reflexivity|]); (split; [|reflexivity]);
    intros ev Hin; repeat (destruct Hin as [<-|Hin]; [eauto|]);
    destruct Hin.
Qed.

(** With [--ignore] given, even empty, the command goes on to the
    client. *)
Example ignore_given_proceeds :
  result_of
    (hello (steady_world None [run_build] 250) 10 "token"
       "clowtown/pr-enforcer" "test" 10 25 None (Some "") false false) =
  Ok tt.
Proof. vm_compute. reflexivity. Qed.

(** ** Instances of the theorems that have hypotheses *)

Lemma fail_fast_precedence_witness :
  failed sample_batch <> [] /\
  decision
    (result_of
       (decide (steady_world None sample_runs 250) false false 10
          (latest_runs_of sample_runs) (runs_of sample_ignore sample_runs)
          (incomplete sample_batch) (failed sample_batch))) = Some Failure /\
  decision
    (result_of
       (decide (steady_world None sample_runs 250) false true 10
          (latest_runs_of sample_runs) (runs_of sample_ignore sample_runs)
          (incomplete sample_batch) (failed sample_batch))) = Some Retry.
Proof.
  assert (Hfailed : failed sample_batch <> []) by (vm_compute; discriminate).
  destruct (fail_fast_precedence (steady_world None sample_runs 250) false 10
              (latest_runs_of sample_runs)
              (runs_of sample_ignore sample_runs) sample_batch Hfailed)
    as (Hfast & Hexh).
  split; [exact Hfailed|]. split; [exact Hfast|].
  apply Hexh. vm_compute; discriminate.
Defined.

Lemma decide_all_complete_witness :
  incomplete (classify sample_ignore [run_build; run_lint]) = [] /\
  decision
    (result_of
       (decide (steady_world None [run_build; run_lint] 250) false true 10
          [run_build; run_lint] [run_build; run_lint]
          (incomplete (classify sample_ignore [run_build; run_lint]))
          (failed (classify sample_ignore [run_build; run_lint])))) =
  Some (if nonempty (failed (classify sample_ignore [run_build; run_lint]))
        then Failure else Success).
Proof.
  split; [reflexivity|].
  apply (decide_all_complete (steady_world None [run_build; run_lint] 250)
           false true 10 [run_build; run_lint] [run_build; run_lint]
           (classify sample_ignore [run_build; run_lint])).
  reflexivity.
Defined.

Lemma ignored_names_never_classified_witness :
  ~ In run_codeql (incomplete sample_batch) /\
  ~ In run_codeql (ignored sample_batch) /\
  ~ In run_codeql (succeeded sample_batch) /\
  ~ In run_codeql (failed sample_batch).
Proof.
  apply (ignored_names_never_classified "label, CodeQL, bridgecrew"
           (Some "enforce-all-checks") sample_runs run_codeql).
  right. exists " CodeQL". split; [|reflexivity].
  right; left; reflexivity.
Defined.


Lemma unrecognized_conclusions_succeed_witness :
  result_of
    (poll_vault (steady_world None [run_docs; run_codeql] 250) false false 10
       sample_ignore 1) = Ok [run_docs] /\
  decision
    (result_of
       (poll_vault (steady_world None [run_docs; run_codeql] 250) false false
          10 sample_ignore 1)) = Some Success.
Proof.
  destruct (unrecognized_conclusions_succeed
              (steady_world None [run_docs; run_codeql] 250) false false 10
              sample_ignore 1 [run_docs; run_codeql] eq_refl)
    as (_ & _ & Hres & Hdec).
  - intros r Hr. vm_compute in Hr. destruct Hr as [<-|[]].
    split; reflexivity.
  - split; [exact Hres|exact Hdec].
Defined.

(** * Further properties *)

(** ** The order and the choice of the de-duplicator *)

Lemma keys_append_eq groups r :
  map fst (groups_append groups r) = add_key (map fst groups) (name r).
Proof.
  unfold add_key, str_in.
  induction groups as [|[k v] groups IH]; simpl; [reflexivity|].
  rewrite (String.eqb_sym (name r) k).
  destruct (String.eqb k (name r)); simpl; [reflexivity|].
  rewrite IH. now destruct (existsb (String.eqb (name r)) (map fst groups)).
Qed.

Lemma fold_keys check_runs groups :
  map fst (fold_left groups_append check_runs groups) =
  fold_left add_key (map name check_runs) (map fst groups).
Proof.
  revert groups. induction check_runs as [|r l IH]; simpl; intros groups.
  - reflexivity.
  - now rewrite IH, keys_append_eq.
Qed.

Lemma fold_add_key_first_seen names :
  fold_left add_key names [] = first_seen names.
Proof.
  unfold first_seen.
  induction names as [|x names IH] using rev_ind; [reflexivity|].
  rewrite fold_left_app, IH, rev_app_distr. simpl.
  unfold add_key.
  destruct (in_dec string_dec x (rev names)) as [Hin|Hnin].
  - assert (Hs : str_in x (rev (nodup string_dec (rev names))) = true).
    { apply str_in_In. apply -> in_rev. now apply nodup_In. }
    now rewrite Hs.
  - assert (Hs : str_in x (rev (nodup string_dec (rev names))) = false).
    { apply not_true_is_false. intros H. apply str_in_In in H.
      apply in_rev in H. now apply nodup_In in H. }
    now rewrite Hs.
Qed.

(** X1. The runs that [reduce_to_latest_runs] returns come in the order in
    which their names are first seen in the input. *)
Theorem reduce_to_latest_runs_order debug check_runs :
  exists latest_runs,
    result_of (reduce_to_latest_runs debug check_runs) = Ok latest_runs /\
    map name latest_runs = first_seen (map name check_runs).
Proof.
  exists (latest_runs_of check_runs).
  split; [apply reduce_to_latest_runs_result|].
  rewrite latest_runs_of_names. unfold group_by_name.
  now rewrite fold_keys, fold_add_key_first_seen.
Qed.

Lemma groups_append_fresh groups r :
  ~ In (name r) (map fst groups) ->
  groups_append groups r = groups ++ [(name r, [r])].
Proof.
  induction groups as [|[k v] groups IH]; simpl; intros Hnin; [reflexivity|].
  destruct (String.eqb_spec k (name r)) as [->|Hne]; [tauto|].
  rewrite IH by tauto. reflexivity.
Qed.

Lemma fold_groups_distinct check_runs groups :
  NoDup (map fst groups ++ map name check_runs) ->
  fold_left groups_append check_runs groups =
  groups ++ map (fun r => (name r, [r])) check_runs.
Proof.
  revert groups. induction check_runs as [|r l IH]; simpl; intros groups Hnd.
  - now rewrite app_nil_r.
  - assert (Hfresh : ~ In (name r) (map fst groups)).
    { intros Hin. apply NoDup_remove_2 in Hnd. apply Hnd.
      apply in_or_app. now left. }
    rewrite (groups_append_fresh _ _ Hfresh), IH.
    + now rewrite <- app_assoc.
    + rewrite map_app. simpl. rewrite <- app_assoc. exact Hnd.
Qed.

Lemma latest_runs_of_distinct check_runs :
  NoDup (map name check_runs) -> latest_runs_of check_runs = check_runs.
Proof.
  intros Hnd. unfold latest_runs_of, group_by_name.
  rewrite fold_groups_distinct by exact Hnd. simpl.
  clear Hnd. induction check_runs as [|r l IH]; simpl; [reflexivity|].
  now rewrite IH.
Qed.

(** X2. A list of runs whose names are pairwise distinct is returned as it
    is, in the same order; so reducing what [reduce_to_latest_runs]
    returned changes nothing. *)
Theorem reduce_to_latest_runs_idempotent :
  (forall debug check_runs,
     NoDup (map name check_runs) ->
     result_of (reduce_to_latest_runs debug check_runs) = Ok check_runs) /\
  (forall debug debug' check_runs,
   exists latest_runs,
     result_of (reduce_to_latest_runs debug check_runs) = Ok latest_runs /\
     result_of (reduce_to_latest_runs debug' latest_runs) = Ok latest_runs).
Proof.
  split.
  - intros debug check_runs Hnd.
    now rewrite reduce_to_latest_runs_result, latest_runs_of_distinct.
  - intros debug debug' check_runs. exists (latest_runs_of check_runs).
    rewrite !reduce_to_latest_runs_result. split; [reflexivity|].
    now rewrite latest_runs_of_distinct by apply latest_runs_of_NoDup.
Qed.

(** The stable sort puts first the earliest of the runs with the largest
    id. *)
Lemma sort_by_id_desc_first runs r0 rest :
  sort_by_id_desc runs = r0 :: rest ->
  exists earlier later,
    runs = earlier ++ r0 :: later /\
    (forall x, In x earlier -> id x < id r0) /\
    (forall x, In x later -> id x <= id r0).
Proof.
  revert r0 rest. induction runs as [|x runs IH]; simpl; intros r0 rest Hs;
    [discriminate|].
  pose proof (sort_by_id_desc_head runs) as Hmax.
  destruct (sort_by_id_desc runs) as [|y tail] eqn:Hsort; simpl in Hs.
  - inversion Hs; subst. apply sort_by_id_desc_nil in Hsort. subst runs.
    exists [], []. repeat split; intros ? [].
  - destruct (id x <? id y) eqn:Hlt.
    + inversion Hs; subst. apply Z.ltb_lt in Hlt.
      destruct (IH r0 tail eq_refl) as (earlier & later & -> & He & Hl).
      exists (x :: earlier), later. split; [reflexivity|]. split; [|exact Hl].
      intros z [<-|Hz]; [exact Hlt|now apply He].
    + inversion Hs; subst. apply Z.ltb_ge in Hlt.
      exists [], runs. split; [reflexivity|]. split; [intros ? []|].
      intros z Hz. simpl in Hmax.
      assert (Hzy : id z <= id y).
      { apply Hmax. change (In z (y :: tail)).
        rewrite <- Hsort. now apply sort_by_id_desc_In. }
      lia.
Qed.

(** X3. Of the runs of one name, [reduce_to_latest_runs] keeps the
    earliest in the input among those with the largest id: every run of
    that name before it has a smaller id, and none after it a larger
    one. *)
Theorem reduce_to_latest_runs_first_max debug check_runs :
  exists latest_runs,
    result_of (reduce_to_latest_runs debug check_runs) = Ok latest_runs /\
    forall r, In r latest_runs ->
      exists earlier later,
        filter (has_name (name r)) check_runs = earlier ++ r :: later /\
        (forall x, In x earlier -> id x < id r) /\
        (forall x, In x later -> id x <= id r).
Proof.
  exists (latest_runs_of check_runs).
  split; [apply reduce_to_latest_runs_result|].
  intros r Hr. apply pick_latest_In in Hr.
  destruct Hr as (k & v & rest & Hin & Hs).
  destruct (proj2 (proj2 (group_by_name_spec check_runs)) k v Hin)
    as (Hv & _).
  destruct (sort_by_id_desc_first v r rest Hs)
    as (earlier & later & Hsplit & He & Hl).
  assert (Hk : name r = k).
  { assert (Hrv : In r v) by (rewrite Hsplit; apply in_elt).
    rewrite Hv in Hrv. apply filter_In in Hrv.
    now apply String.eqb_eq. }
  exists earlier, later. rewrite Hk, <- Hv. auto.
Qed.

(** ** Splitting and stripping the ignore option *)

Lemma split_comma_nonempty s : split_comma s <> [].
Proof.
  destruct s as [|c rest]; simpl; [discriminate|].
  destruct (Ascii.eqb c ","); [discriminate|].
  destruct (split_comma rest); discriminate.
Qed.

Lemma join_comma_cons piece rest :
  rest <> [] ->
  join_comma (piece :: rest) =
  String.append piece (String "," (join_comma rest)).
Proof. destruct rest; [contradiction|reflexivity]. Qed.

Lemma join_comma_head c piece pieces :
  join_comma (String c piece :: pieces) =
  String c (join_comma (piece :: pieces)).
Proof. destruct pieces; reflexivity. Qed.

Lemma join_split_comma s : join_comma (split_comma s) = s.
Proof.
  induction s as [|c rest IH]; [reflexivity|].
  simpl split_comma. destruct (Ascii.eqb_spec c ",") as [->|Hc].
  - rewrite join_comma_cons by apply split_comma_nonempty.
    simpl. now rewrite IH.
  - pose proof (split_comma_nonempty rest) as Hne.
    destruct (split_comma rest) as [|piece pieces]; [contradiction|].
    now rewrite join_comma_head, IH.
Qed.

Lemma split_comma_no_comma s :
  Forall (fun piece => has_comma piece = false) (split_comma s).
Proof.
  induction s as [|c rest IH]; simpl.
  - now repeat constructor.
  - destruct (Ascii.eqb c ",") eqn:Hc.
    + now constructor.
    + destruct (split_comma rest) as [|piece pieces].
      * repeat constructor. simpl. now rewrite Hc.
      * inversion IH; subst. constructor; [|assumption].
        simpl. now rewrite Hc.
Qed.

Lemma split_comma_piece piece :
  has_comma piece = false -> split_comma piece = [piece].
Proof.
  induction piece as [|c rest IH]; simpl; [reflexivity|].
  intros H. apply orb_false_iff in H. destruct H as (Hc & Hrest).
  now rewrite Hc, (IH Hrest).
Qed.

Lemma split_comma_append piece rest :
  has_comma piece = false ->
  split_comma (String.append piece (String "," rest)) =
  piece :: split_comma rest.
Proof.
  induction piece as [|c piece IH]; simpl; [reflexivity|].
  intros H. apply orb_false_iff in H. destruct H as (Hc & Hp).
  now rewrite Hc, (IH Hp).
Qed.

(** X4. Splitting at the commas loses nothing: joining the pieces with
    commas gives the string back, there is at least one piece, and no
    piece holds a comma; and a non-empty list of comma-free pieces, joined
    and split, comes back as it was. *)
Theorem split_comma_round_trip :
  (forall s,
     join_comma (split_comma s) = s /\
     split_comma s <> [] /\
     Forall (fun piece => has_comma piece = false) (split_comma s)) /\
  (forall pieces,
     pieces <> [] ->
     Forall (fun piece => has_comma piece = false) pieces ->
     split_comma (join_comma pieces) = pieces).
Proof.
  split.
  - intros s. split; [apply join_split_comma|].
    split; [apply split_comma_nonempty|apply split_comma_no_comma].
  - induction pieces as [|piece rest IH]; intros Hne Hall; [contradiction|].
    inversion Hall as [|? ? Hpiece Hrest]; subst.
    destruct rest as [|piece' rest].
    + simpl. now apply split_comma_piece.
    + rewrite join_comma_cons by discriminate.
      rewrite split_comma_append by exact Hpiece.
      now rewrite IH by (discriminate || assumption).
Qed.

Lemma lstrip_spec s :
  exists pre,
    s = String.append pre (lstrip s) /\ all_space pre = true /\
    starts_with_space (lstrip s) = false.
Proof.
  induction s as [|c rest IH]; simpl.
  - now exists EmptyString.
  - destruct (is_space c) eqn:Hc.
    + destruct IH as (pre & Heq & Hpre & Hstart).
      exists (String c pre). simpl. rewrite Hc, Hpre, <- Heq. auto.
    + exists EmptyString. simpl. auto.
Qed.

Lemma rstrip_spec s :
  exists post,
    s = String.append (rstrip s) post /\ all_space post = true /\
    ends_with_space (rstrip s) = false /\
    (starts_with_space s = false -> starts_with_space (rstrip s) = false).
Proof.
  induction s as [|c rest IH]; simpl.
  - now exists EmptyString.
  - destruct IH as (post & Heq & Hpost & Hend & _).
    destruct (rstrip rest) as [|k kept] eqn:Hr.
    + simpl in Heq. subst post. destruct (is_space c) eqn:Hc.
      * exists (String c rest). simpl. rewrite Hc, Hpost. auto.
      * exists rest. simpl. rewrite Hc. auto.
    + exists post. simpl in Heq |- *. rewrite <- Heq. auto.
Qed.

(** [strip] removes white space at both ends and nothing else: the
    string is a run of white space, then the stripped string, then a run
    of white space, and the stripped string neither begins nor ends with
    white space. *)
Lemma strip_spec s :
  exists pre post,
    s = String.append pre (String.append (strip s) post) /\
    all_space pre = true /\ all_space post = true /\
    starts_with_space (strip s) = false /\
    ends_with_space (strip s) = false.
Proof.
  unfold strip.
  destruct (lstrip_spec s) as (pre & Hs & Hpre & Hstart).
  destruct (rstrip_spec (lstrip s)) as (post & Hl & Hpost & Hend & Hkeep).
  exists pre, post.
  split; [now rewrite <- Hl|].
  split; [exact Hpre|]. split; [exact Hpost|].
  split; [now apply Hkeep|exact Hend].
Qed.

(** ** The name filter and the de-duplicator *)

Section FilterByName.
Variable keep : string -> bool.

Let keep_group (kv : string * list CheckRun) : bool := keep (fst kv).
Let keep_run (r : CheckRun) : bool := keep (name r).

Lemma filter_groups_append groups r :
  filter keep_group (groups_append groups r) =
  if keep (name r) then groups_append (filter keep_group groups) r
  else filter keep_group groups.
Proof.
  unfold keep_group.
  induction groups as [|[k v] groups IH]; simpl.
  - now destruct (keep (name r)).
  - destruct (String.eqb_spec k (name r)) as [->|Hne]; simpl.
    + destruct (keep (name r)); simpl; [|reflexivity].
      now rewrite String.eqb_refl.
    + rewrite IH. destruct (keep k), (keep (name r)); simpl;
        try reflexivity.
      destruct (String.eqb_spec k (name r)); [contradiction|reflexivity].
Qed.

Lemma filter_fold_groups check_runs groups :
  fold_left groups_append (filter keep_run check_runs)
    (filter keep_group groups) =
  filter keep_group (fold_left groups_append check_runs groups).
Proof.
  revert groups. induction check_runs as [|r l IH]; simpl; intros groups;
    [reflexivity|].
  rewrite <- IH, filter_groups_append. unfold keep_run at 1.
  now destruct (keep (name r)).
Qed.

Lemma filter_pick_latest groups :
  (forall k v, In (k, v) groups -> forall r, In r v -> name r = k) ->
  flat_map pick_latest (filter keep_group groups) =
  filter keep_run (flat_map pick_latest groups).
Proof.
  induction groups as [|[k v] groups IH]; simpl; intros Hnames;
    [reflexivity|].
  rewrite filter_app, <- IH by (intros k' v' Hin; apply Hnames; now right).
  unfold keep_group at 1; simpl.
  assert (Hpick : filter keep_run (pick_latest (k, v)) =
                  if keep k then pick_latest (k, v) else []).
  { unfold pick_latest; simpl.
    destruct (sort_by_id_desc v) as [|r0 rest] eqn:Hs;
      [now destruct (keep k)|].
    assert (Hk : name r0 = k).
    { apply (Hnames k v (or_introl eq_refl)).
      apply sort_by_id_desc_In. rewrite Hs. now left. }
    simpl. unfold keep_run. rewrite Hk. now destruct (keep k). }
  rewrite Hpick. now destruct (keep k).
Qed.

Lemma latest_runs_of_filter check_runs :
  latest_runs_of (filter keep_run check_runs) =
  filter keep_run (latest_runs_of check_runs).
Proof.
  unfold latest_runs_of, group_by_name.
  change (@nil (string * list CheckRun)) with (filter keep_group []) at 1.
  rewrite filter_fold_groups. apply filter_pick_latest.
  intros k v Hin r Hr.
  destruct (proj2 (proj2 (group_by_name_spec check_runs)) k v Hin)
    as (Hv & _).
  rewrite Hv in Hr. apply filter_In in Hr. now apply String.eqb_eq.
Qed.
End FilterByName.

(** X6. The name filter and the de-duplicator commute: dropping the
    ignored names from the fetched runs and then reducing gives the same
    runs, in the same order, as [poll_vault] gets by reducing first and
    dropping the ignored names afterwards. *)
Theorem filter_commutes_with_reduce debug user_ignore check_runs :
  result_of
    (reduce_to_latest_runs debug
       (filter (not_ignored user_ignore) check_runs)) =
  Ok (runs_of user_ignore check_runs).
Proof.
  rewrite reduce_to_latest_runs_result. unfold runs_of, not_ignored.
  now rewrite (latest_runs_of_filter
                 (fun k => negb (in_user_ignore k user_ignore))).
Qed.

(** ** The buckets *)

Lemma length_four_way {A} (f1 f2 f3 f4 : A -> bool) (l : list A) :
  (forall x, In x l ->
     match f1 x, f2 x, f3 x, f4 x with
     | true, false, false, false | false, true, false, false
     | false, false, true, false | false, false, false, true => True
     | _, _, _, _ => False
     end) ->
  List.length l =
  (List.length (filter f1 l) + List.length (filter f2 l)
   + List.length (filter f3 l) + List.length (filter f4 l))%nat.
Proof.
  induction l as [|x l IH]; simpl; intros H; [reflexivity|].
  pose proof (H x (or_introl eq_refl)) as Hx.
  rewrite IH by (intros y Hy; apply H; now right).
  destruct (f1 x), (f2 x), (f3 x), (f4 x); try contradiction; simpl; lia.
Qed.

(** X7. The sizes that a poll logs add up: the completed runs are the
    ignored, the succeeded and the failed ones and those whose conclusion
    is not recognized, each counted once; and [_runs] are the incomplete
    and the completed ones and those with another status. *)
Theorem bucket_sizes_add_up user_ignore check_runs :
  let batch := classify user_ignore check_runs in
  let complete := complete_of user_ignore check_runs in
  let _runs := runs_of user_ignore check_runs in
  List.length complete =
  (List.length (ignored batch) + List.length (succeeded batch)
   + List.length (failed batch)
   + List.length
       (filter (fun r => negb (recognized (conclusion r))) complete))%nat /\
  List.length _runs =
  (List.length (incomplete batch) + List.length complete
   + List.length (filter other_status _runs))%nat.
Proof.
  cbv zeta. split.
  - unfold classify, with_conclusion; cbn [ignored succeeded failed].
    apply length_four_way. intros r _.
    pose proof (taxonomy_disjoint (conclusion r)) as Hd.
    unfold recognized.
    destruct (opt_in (conclusion r) Conclusion.ignored),
      (opt_in (conclusion r) Conclusion.succeeded),
      (opt_in (conclusion r) Conclusion.fail); try contradiction; exact I.
  - unfold classify, complete_of; cbn [incomplete].
    rewrite (length_four_way
               (fun r => str_in (status r) Status.incomplete)
               (fun r => str_in (status r) Status.complete)
               other_status (fun _ => false)
               (runs_of user_ignore check_runs)).
    + assert (Hnone : forall l : list CheckRun,
                 filter (fun _ => false) l = []) by (induction l; auto).
      rewrite Hnone. simpl. lia.
    + intros r _. unfold other_status, str_in, Status.incomplete,
        Status.complete. cbn [existsb].
      generalize (status r) as s. intros s.
      destruct (String.eqb_spec s Status.queued); [subst; exact I|].
      destruct (String.eqb_spec s Status.in_progress); [subst; exact I|].
      destruct (String.eqb_spec s Status.completed); [subst; exact I|].
      exact I.
Qed.

(** X8. Runs whose status is none of queued, in_progress and completed
    are in no bucket and are not counted as completed: when all of [_runs]
    are such, the poll finds nothing incomplete and nothing failed and
    returns. *)
Theorem other_status_does_not_hold_the_poll
        w debug exhaustive interval user_ignore n check_runs :
  get_check_runs w n = inl check_runs ->
  (forall r, In r (runs_of user_ignore check_runs) ->
             other_status r = true) ->
  incomplete (classify user_ignore check_runs) = [] /\
  complete_of user_ignore check_runs = [] /\
  result_of (poll_vault w debug exhaustive interval user_ignore n) =
  Ok (runs_of user_ignore check_runs).
Proof.
  intros Hget Hall.
  assert (Hinc : incomplete (classify user_ignore check_runs) = []).
  { unfold classify; cbn [incomplete]. apply filter_none. intros r Hr.
    specialize (Hall r Hr). unfold other_status in Hall.
    apply andb_true_iff in Hall. destruct Hall as (H & _).
    now apply negb_true_iff in H. }
  assert (Hcomp : complete_of user_ignore check_runs = []).
  { unfold complete_of. apply filter_none. intros r Hr.
    specialize (Hall r Hr). unfold other_status in Hall.
    apply andb_true_iff in Hall. destruct Hall as (_ & H).
    now apply negb_true_iff in H. }
  split; [exact Hinc|]. split; [exact Hcomp|].
  rewrite (poll_vault_result _ _ _ _ _ _ _ Hget), decide_result, Hinc.
  unfold classify, with_conclusion; cbn [failed]. now rewrite Hcomp.
Qed.

Lemma other_status_does_not_hold_the_poll_witness :
  other_status run_waiting = true /\
  result_of
    (poll_vault (steady_world None [run_waiting] 250) false false 10
       sample_ignore 1) = Ok [run_waiting].
Proof.
  split; [reflexivity|].
  apply (other_status_does_not_hold_the_poll
           (steady_world None [run_waiting] 250) false false 10
           sample_ignore 1 [run_waiting] eq_refl).
  intros r Hr. vm_compute in Hr. destruct Hr as [<-|[]]. reflexivity.
Defined.

(** X9. The decision of a poll whose fetch succeeds, in full: Success
    exactly when nothing is incomplete and nothing failed; Retry exactly
    when something is incomplete and either the mode is exhaustive or
    nothing failed; Failure exactly when something failed and either the
    mode is fail-fast or nothing is incomplete.  No other ending
    occurs. *)
Theorem decision_table w debug exhaustive interval user_ignore n check_runs :
  get_check_runs w n = inl check_runs ->
  let batch := classify user_ignore check_runs in
  let d :=
    decision
      (result_of (poll_vault w debug exhaustive interval user_ignore n)) in
  (d = Some Success <-> incomplete batch = [] /\ failed batch = []) /\
  (d = Some Retry <->
   incomplete batch <> [] /\ (exhaustive = true \/ failed batch = [])) /\
  (d = Some Failure <->
   failed batch <> [] /\ (exhaustive = false \/ incomplete batch = [])) /\
  d <> None.
Proof.
  intros Hget batch d. subst d batch.
  rewrite (poll_vault_result _ _ _ _ _ _ _ Hget), decide_result.
  destruct (incomplete (classify user_ignore check_runs)) as [|i more],
    (failed (classify user_ignore check_runs)) as [|f fs], exhaustive;
    cbn; repeat split; intros; try discriminate; try tauto;
    repeat match goal with
           | H : _ /\ _ |- _ => destruct H
           | H : _ \/ _ |- _ => destruct H
           end; try discriminate; try contradiction; auto.
Qed.

Lemma decision_table_witness :
  decision
    (result_of
       (poll_vault (steady_world None sample_runs 250) false true 10
          sample_ignore 1)) = Some Retry.
Proof.
  apply (decision_table (steady_world None sample_runs 250) false true 10
           sample_ignore 1 sample_runs eq_refl).
  split; [vm_compute; discriminate|]. now left.
Defined.

(** ** The retry loop within its budget *)

Section LoopBudget.
Variable w : World.
Variable debug exhaustive : bool.
Variable interval : Z.
Variable user_ignore : list (option string).

Let poll := poll_vault w debug exhaustive interval user_ignore.

Lemma plain_logs_no_sleep t : plain_logs t -> filter is_sleep t = [].
Proof.
  unfold plain_logs. induction t as [|ev t IH]; simpl; [reflexivity|].
  intros H. apply andb_true_iff in H. destruct H as (Hev & Ht).
  destruct ev; try discriminate. simpl. auto.
Qed.

Lemma poll_vault_no_sleep n : filter is_sleep (trace_of (poll n)) = [].
Proof.
  unfold poll. destruct (get_check_runs w n) as [check_runs|code] eqn:Hget.
  - destruct (poll_vault_trace w debug exhaustive interval user_ignore n
                check_runs Hget) as (before & after & -> & Hb & Ha & _).
    rewrite !filter_app. cbn [filter is_sleep].
    rewrite (plain_logs_no_sleep _ Hb), (plain_logs_no_sleep _ Ha).
    cbn [app].
    pose proof (decide_trace w debug exhaustive interval
                  (latest_runs_of check_runs)
                  (runs_of user_ignore check_runs)
                  (incomplete (classify user_ignore check_runs))
                  (failed (classify user_ignore check_runs))) as Hd.
    destruct (result_of (decide _ _ _ _ _ _ _ _)) as [a|e|];
      try (now apply plain_logs_no_sleep).
    destruct e; try (now apply plain_logs_no_sleep).
    destruct Hd as (pre & -> & Hpre).
    rewrite filter_app, (plain_logs_no_sleep _ Hpre), log_summary_cases.
    destruct (GITHUB_STEP_SUMMARY w) as [[|ch path]|], debug; reflexivity.
  - unfold poll_vault.
    rewrite (fetch_check_runs_error _ _ _ Hget).
    destruct debug; reflexivity.
Qed.

Variable timeout : Z.

Let loop := Tenacity.retrying timeout interval (attempt_millis w) poll.

(** The clock against the number of polls, from any turn of the loop. *)
Lemma retrying_budget fuel n began :
  (poll_cycles (trace_of (loop fuel n began)) <= fuel)%nat /\
  ((2 <= poll_cycles (trace_of (loop fuel n began)))%nat ->
   began
   + (Z.of_nat (poll_cycles (trace_of (loop fuel n began))) - 2)
     * (1000 * interval) < 1000 * timeout) /\
  (result_of (loop fuel n began) <> OutOfFuel ->
   (1 <= poll_cycles (trace_of (loop fuel n began)))%nat /\
   filter is_sleep (trace_of (loop fuel n began)) =
   repeat (Sleep interval)
          (poll_cycles (trace_of (loop fuel n began)) - 1)).
Proof.
  revert n began. induction fuel as [|fuel IH]; intros n began.
  - cbn. split; [lia|]. split; [intros; lia|]. intros H; now destruct H.
  - unfold loop.
    rewrite (retrying_step w debug exhaustive interval user_ignore timeout).
    fold poll. fold loop.
    pose proof (poll_vault_cycles w debug exhaustive interval user_ignore n)
      as Hcyc.
    pose proof (poll_vault_no_sleep n) as Hns.
    fold poll in Hcyc.
    destruct (poll n) as [t r]. cbn [trace_of fst] in Hcyc, Hns.
    assert (Hone : forall r0 : outcome (list CheckRun),
               (poll_cycles (trace_of (t, r0)) <= S fuel)%nat /\
               ((2 <= poll_cycles (trace_of (t, r0)))%nat ->
                began + (Z.of_nat (poll_cycles (trace_of (t, r0))) - 2)
                        * (1000 * interval) < 1000 * timeout) /\
               (result_of (t, r0) <> OutOfFuel ->
                (1 <= poll_cycles (trace_of (t, r0)))%nat /\
                filter is_sleep (trace_of (t, r0)) =
                repeat (Sleep interval)
                       (poll_cycles (trace_of (t, r0)) - 1))).
    { intros r0. cbn [trace_of fst]. rewrite Hcyc, Hns.
      split; [lia|]. split; [intros; lia|].
      intros _. split; [lia|reflexivity]. }
    destruct r as [a|e|]; try apply Hone.
    destruct (negb (is_Enforcer e)); [apply Hone|].
    unfold Tenacity.stop_after_delay.
    destruct (1000 * timeout <=? began + Z.of_N (attempt_millis w n))
      eqn:Hstop; [apply Hone|].
    destruct (interval <? 0) eqn:Hneg; [apply Hone|].
    apply Z.leb_gt in Hstop. apply Z.ltb_ge in Hneg. clear Hone.
    specialize (IH (S n)
                   (began + Z.of_N (attempt_millis w n) + 1000 * interval)).
    destruct (loop fuel (S n) _) as [t' r'].
    cbn [trace_of result_of fst snd] in *.
    rewrite poll_cycles_app, poll_cycles_sleep, Hcyc.
    rewrite filter_app, Hns. cbn [app filter is_sleep].
    destruct IH as (Hle & Hbudget & Hsleeps).
    split; [lia|]. split.
    + intros Htwo.
      destruct (poll_cycles t') as [|[|k]] eqn:Hk; [lia| |].
      * replace (Z.of_nat (1 + 1) - 2) with 0 by lia. lia.
      * assert (Hk2 : (2 <= S (S k))%nat) by lia.
        specialize (Hbudget Hk2).
        replace (Z.of_nat (1 + S (S k)) - 2) with (Z.of_nat k + 1) by lia.
        replace (Z.of_nat (S (S k)) - 2) with (Z.of_nat k) in Hbudget by lia.
        nia.
    + intros Hr. destruct (Hsleeps Hr) as (Hpos & ->).
      split; [lia|].
      destruct (poll_cycles t') as [|k]; [lia|].
      cbn. now rewrite Nat.sub_0_r.
Qed.
End LoopBudget.

(** X10. The loop never polls more often than the budget allows: when it
    polled k times, k at least 2, then k - 2 intervals fit into the budget
    with time to spare, (k - 2) * interval < timeout; so there are at most
    timeout / interval + 2 polls, whatever the attempts take. *)
Theorem polls_within_budget
        w fuel interval timeout user_ignore exhaustive debug :
  let run :=
    poll_vault_retrying w fuel interval timeout user_ignore exhaustive debug in
  (poll_cycles (trace_of run) <= fuel)%nat /\
  ((2 <= poll_cycles (trace_of run))%nat ->
   (Z.of_nat (poll_cycles (trace_of run)) - 2) * interval < timeout).
Proof.
  intros run. subst run. unfold poll_vault_retrying.
  destruct (retrying_budget w debug exhaustive interval user_ignore timeout
              fuel 1%nat 0) as (Hle & Hbudget & _).
  split; [exact Hle|]. intros Htwo. specialize (Hbudget Htwo). nia.
Qed.

(** X11. With a positive interval the loop ends: after at most
    timeout / interval + 1 turns it has returned or raised. *)
Theorem polling_terminates
        w fuel interval timeout user_ignore exhaustive debug :
  0 < interval ->
  timeout <= Z.of_nat fuel * interval ->
  result_of
    (poll_vault_retrying w (S fuel) interval timeout user_ignore exhaustive
       debug) <> OutOfFuel.
Proof.
  intros Hpos Hfuel. unfold poll_vault_retrying.
  apply retrying_terminates; [exact Hpos|]. nia.
Qed.

Lemma polling_terminates_witness :
  0 < 10 /\ 25 <= Z.of_nat 3 * 10 /\
  result_of
    (poll_vault_retrying (steady_world None [run_deploy] 250) 4 10 25
       sample_ignore false false) <> OutOfFuel.
Proof.
  split; [lia|]. split; [lia|].
  apply (polling_terminates (steady_world None [run_deploy] 250) 3 10 25
           sample_ignore false false); lia.
Defined.

Section PollsAndSleeps.
Variable w : World.
Variable debug exhaustive : bool.
Variable interval : Z.
Variable user_ignore : list (option string).

Let poll := poll_vault w debug exhaustive interval user_ignore.

Lemma plain_logs_no_poll_or_sleep t :
  plain_logs t -> filter is_poll_or_sleep t = [].
Proof.
  unfold plain_logs. induction t as [|ev t IH]; simpl; [reflexivity|].
  intros H. apply andb_true_iff in H. destruct H as (Hev & Ht).
  destruct ev; try discriminate. simpl. auto.
Qed.

Lemma decide_no_poll_or_sleep latest_runs _runs incomplete failed_runs :
  filter is_poll_or_sleep
    (trace_of
       (decide w debug exhaustive interval latest_runs _runs incomplete
          failed_runs)) = [].
Proof.
  unfold decide, log_summary.
  destruct failed_runs, incomplete, exhaustive, debug,
    (GITHUB_STEP_SUMMARY w) as [[|ch path]|]; reflexivity.
Qed.

(** Of polls and sleeps, a poll holds its one fetch. *)
Lemma poll_vault_one_fetch n :
  filter is_poll_or_sleep (trace_of (poll n)) = [Api GetCheckRuns].
Proof.
  unfold poll. destruct (get_check_runs w n) as [check_runs|code] eqn:Hget.
  - destruct (poll_vault_trace w debug exhaustive interval user_ignore n
                check_runs Hget) as (before & after & -> & Hb & Ha & _).
    rewrite !filter_app, decide_no_poll_or_sleep.
    cbn [filter is_poll_or_sleep is_fetch is_sleep orb].
    now rewrite (plain_logs_no_poll_or_sleep _ Hb),
      (plain_logs_no_poll_or_sleep _ Ha).
  - unfold poll_vault.
    rewrite (fetch_check_runs_error _ _ _ Hget).
    destruct debug; reflexivity.
Qed.

Variable timeout : Z.

Let loop := Tenacity.retrying timeout interval (attempt_millis w) poll.

Lemma retrying_polls_and_sleeps fuel n began :
  result_of (loop fuel n began) <> OutOfFuel ->
  (1 <= poll_cycles (trace_of (loop fuel n began)))%nat /\
  filter is_poll_or_sleep (trace_of (loop fuel n began)) =
  polls_and_sleeps interval (poll_cycles (trace_of (loop fuel n began))).
Proof.
  revert n began. induction fuel as [|fuel IH]; intros n began.
  - intros H. now destruct H.
  - unfold loop.
    rewrite (retrying_step w debug exhaustive interval user_ignore timeout).
    fold poll. fold loop.
    pose proof (poll_vault_cycles w debug exhaustive interval user_ignore n)
      as Hcyc.
    pose proof (poll_vault_one_fetch n) as Hone.
    fold poll in Hcyc.
    destruct (poll n) as [t r]. cbn [trace_of fst] in Hcyc, Hone.
    assert (Hend : forall r0 : outcome (list CheckRun),
               (1 <= poll_cycles (trace_of (t, r0)))%nat /\
               filter is_poll_or_sleep (trace_of (t, r0)) =
               polls_and_sleeps interval (poll_cycles (trace_of (t, r0)))).
    { intros r0. cbn [trace_of fst]. rewrite Hcyc, Hone.
      split; [lia|reflexivity]. }
    destruct r as [a|e|]; try (intros _; apply Hend).
    destruct (negb (is_Enforcer e)); [intros _; apply Hend|].
    destruct (Tenacity.stop_after_delay _ _); [intros _; apply Hend|].
    destruct (interval <? 0); [intros _; apply Hend|].
    clear Hend.
    specialize (IH (S n)
                   (began + Z.of_N (attempt_millis w n) + 1000 * interval)).
    destruct (loop fuel (S n) _) as [t' r'].
    cbn [trace_of result_of fst snd] in *.
    intros Hr. destruct (IH Hr) as (Hpos & Hrest).
    rewrite poll_cycles_app, poll_cycles_sleep, Hcyc.
    rewrite filter_app, Hone.
    cbn [app filter is_poll_or_sleep is_fetch is_sleep orb].
    rewrite Hrest. split; [lia|].
    destruct (poll_cycles t') as [|k]; [lia|reflexivity].
Qed.
End PollsAndSleeps.

(** X12. The polls and the sleeps of a loop that has ended, in the order
    in which they happen, are: a poll, and for every further poll a sleep
    of [interval] seconds followed by that poll.  So the loop sleeps
    exactly [interval] seconds between each two consecutive polls, and
    neither before the first poll nor after the last. *)
Theorem sleeps_between_polls
        w fuel interval timeout user_ignore exhaustive debug :
  let run :=
    poll_vault_retrying w fuel interval timeout user_ignore exhaustive debug in
  result_of run <> OutOfFuel ->
  (1 <= poll_cycles (trace_of run))%nat /\
  filter is_poll_or_sleep (trace_of run) =
  polls_and_sleeps interval (poll_cycles (trace_of run)).
Proof.
  intros run. subst run. unfold poll_vault_retrying.
  apply (retrying_polls_and_sleeps w debug exhaustive interval user_ignore
           timeout fuel 1%nat 0).
Qed.

Lemma sleeps_between_polls_witness :
  poll_cycles
    (trace_of
       (poll_vault_retrying (steady_world None [run_deploy] 250) 4 10 25
          sample_ignore false false)) = 4%nat /\
  filter is_poll_or_sleep
    (trace_of
       (poll_vault_retrying (steady_world None [run_deploy] 250) 4 10 25
          sample_ignore false false)) =
  [Api GetCheckRuns; Sleep 10; Api GetCheckRuns; Sleep 10; Api GetCheckRuns;
   Sleep 10; Api GetCheckRuns].
Proof.
  split; [vm_compute; reflexivity|].
  destruct (sleeps_between_polls (steady_world None [run_deploy] 250) 4 10 25
              sample_ignore false false) as (_ & Hs).
  - vm_compute. discriminate.
  - rewrite Hs. vm_compute. reflexivity.
Defined.

(** ** How the command ends *)

Lemma poll_vault_raises w debug exhaustive interval user_ignore n e :
  result_of (poll_vault w debug exhaustive interval user_ignore n) = Raise e ->
  is_Exception e = true.
Proof.
  destruct (get_check_runs w n) as [check_runs|code] eqn:Hget.
  - rewrite (poll_vault_result _ _ _ _ _ _ _ Hget), decide_result.
    destruct (nonempty _ && negb exhaustive);
      [intros H; inversion H; reflexivity|].
    destruct (nonempty _); [intros H; inversion H; reflexivity|].
    destruct (nonempty _); intros H; inversion H; reflexivity.
  - destruct (poll_vault_fetch_error w debug exhaustive interval user_ignore
                n code Hget) as (-> & _).
    intros H; inversion H; reflexivity.
Qed.

Lemma retrying_raises w debug exhaustive interval user_ignore timeout
      fuel n began e :
  result_of
    (Tenacity.retrying timeout interval (attempt_millis w)
       (poll_vault w debug exhaustive interval user_ignore) fuel n began) =
  Raise e ->
  is_Exception e = true.
Proof.
  revert n began. induction fuel as [|fuel IH]; intros n began;
    [discriminate|].
  rewrite (retrying_step w debug exhaustive interval user_ignore timeout).
  pose proof (poll_vault_raises w debug exhaustive interval user_ignore n)
    as Hp.
  destruct (poll_vault w debug exhaustive interval user_ignore n) as [t r].
  cbn [result_of snd] in Hp.
  destruct r as [a|e0|]; try discriminate.
  destruct (negb (is_Enforcer e0));
    [intros H; inversion H; subst; now apply Hp|].
  destruct (Tenacity.stop_after_delay _ _);
    [intros H; inversion H; reflexivity|].
  destruct (interval <? 0); [intros H; inversion H; reflexivity|].
  specialize (IH (S n)
                 (began + Z.of_N (attempt_millis w n) + 1000 * interval)).
  destruct (Tenacity.retrying _ _ _ _ fuel _ _) as [t' r'].
  exact IH.
Qed.

Lemma api_ok w call :
  lookup_error w call = None -> api w call = ([Api call], Ok tt).
Proof. unfold api. intros ->. reflexivity. Qed.

Lemma api_error w call code :
  lookup_error w call = Some code ->
  api w call = ([Api call], Raise (GithubException code)).
Proof. unfold api. intros ->. reflexivity. Qed.

Lemma startup_debug_items debug (l : list string) :
  forallb startup_event
    (trace_of
       (for_each l (fun ui => logger_debug debug (MUserIgnoreItem ui)))) =
  true.
Proof.
  rewrite for_each_debug_trace. destruct debug; [|reflexivity].
  induction l as [|x l IH]; simpl; auto.
Qed.

Ltac log_result :=
  first [ apply logger_info_result | apply logger_debug_result
        | apply for_each_result; intros; apply logger_debug_result ].

(** What [hello] runs once the commit is found. *)
Lemma hello_startup
      w fuel token repository branch interval timeout own_name ignore
      exhaustive debug :
  (forall call, lookup_error w call = None) ->
  let body :=
    try_except
      (poll_vault_retrying w fuel interval timeout
         (append_name (map strip (split_comma ignore)) own_name) exhaustive
         debug ;;
       ret tt)%py
      (fun _ => (annotate debug ;; raise (SystemExit 1))%py) in
  let run :=
    hello w fuel token repository branch interval timeout own_name
      (Some ignore) exhaustive debug in
  result_of run = result_of body /\
  exists pre,
    trace_of run = pre ++ trace_of body /\
    forallb startup_event pre = true.
Proof.
  intros Hlook body run. subst run. unfold hello, update_logging.
  split.
  - do 9 (rewrite (bind_result _ _ tt) by log_result).
    rewrite (bind_result _ _ tt) by log_result.
    rewrite (bind_result _ _ (map strip (split_comma ignore)))
      by reflexivity.
    do 5 (rewrite (bind_result _ _ tt) by log_result).
    rewrite (bind_result _ _ tt) by (now rewrite api_ok).
    rewrite (bind_result _ _ tt) by log_result.
    rewrite (bind_result _ _ tt) by (now rewrite api_ok).
    rewrite (bind_result _ _ tt) by log_result.
    rewrite (bind_result _ _ tt) by (now rewrite api_ok).
    reflexivity.
  - do 9 (rewrite (bind_trace _ _ tt) by log_result).
    rewrite (bind_trace _ _ tt) by log_result.
    rewrite (bind_trace _ _ (map strip (split_comma ignore)))
      by reflexivity.
    do 5 (rewrite (bind_trace _ _ tt) by log_result).
    rewrite (bind_trace _ _ tt) by (now rewrite api_ok).
    rewrite (bind_trace _ _ tt) by log_result.
    rewrite (bind_trace _ _ tt) by (now rewrite api_ok).
    rewrite (bind_trace _ _ tt) by log_result.
    rewrite (bind_trace _ _ tt) by (now rewrite api_ok).
    rewrite !api_ok by apply Hlook.
    fold body. eexists. split.
    + repeat rewrite app_assoc. reflexivity.
    + repeat rewrite forallb_app.
      rewrite startup_debug_items.
      destruct debug; reflexivity.
Qed.

Lemma try_except_loop {A} (m : M A) debug :
  (forall e, result_of m = Raise e -> is_Exception e = true) ->
  let body :=
    try_except (m ;; ret tt)%py
      (fun _ => (annotate debug ;; raise (SystemExit 1))%py) in
  match result_of m with
  | Ok _ => result_of body = Ok tt /\ trace_of body = trace_of m
  | Raise _ =>
      result_of body = Raise (SystemExit 1) /\
      trace_of body =
      trace_of m ++ [Log (if debug then ERROR else FATAL) MAnnotation]
  | OutOfFuel => result_of body = OutOfFuel /\ trace_of body = trace_of m
  end.
Proof.
  intros Hexc. destruct m as [t r]. cbn [result_of trace_of fst snd] in *.
  destruct r as [a|e|]; cbn.
  - now rewrite app_nil_r.
  - rewrite (Hexc e eq_refl). destruct debug; cbn; auto.
  - auto.
Qed.

Lemma startup_no_fetch t :
  forallb startup_event t = true -> poll_cycles t = 0%nat.
Proof.
  unfold poll_cycles. induction t as [|ev t IH]; simpl; [reflexivity|].
  intros H. apply andb_true_iff in H. destruct H as (Hev & Ht).
  destruct ev as [lvl m| |call|]; try discriminate; simpl; auto.
  destruct call; try discriminate; simpl; auto.
Qed.

(** X13. Once the commit is found, the command returns normally exactly
    when the retry loop returns, that is on Success; whenever the loop
    raises (Failure, TimedOut, an error of the client) the command writes
    the error annotation as its last record, at level ERROR under
    [--debug] and FATAL otherwise, and exits with code 1.  The command
    itself fetches no check runs. *)
Theorem hello_exit_status
        w fuel token repository branch interval timeout own_name ignore
        exhaustive debug :
  (forall call, lookup_error w call = None) ->
  let loop :=
    poll_vault_retrying w fuel interval timeout
      (append_name (map strip (split_comma ignore)) own_name) exhaustive
      debug in
  let run :=
    hello w fuel token repository branch interval timeout own_name
      (Some ignore) exhaustive debug in
  poll_cycles (trace_of run) = poll_cycles (trace_of loop) /\
  match result_of loop with
  | Ok _ => result_of run = Ok tt
  | Raise _ =>
      result_of run = Raise (SystemExit 1) /\
      last (trace_of run) (Sleep 0) =
      Log (if debug then ERROR else FATAL) MAnnotation
  | OutOfFuel => result_of run = OutOfFuel
  end.
Proof.
  intros Hlook loop run.
  destruct (hello_startup w fuel token repository branch interval timeout
              own_name ignore exhaustive debug Hlook)
    as (Hres & pre & Htrace & Hpre).
  fold run in Hres, Htrace.
  assert (Hexc : forall e, result_of loop = Raise e -> is_Exception e = true).
  { intros e. apply retrying_raises. }
  pose proof (try_except_loop loop debug Hexc) as Hbody.
  cbv zeta in Hbody. fold loop in Hres, Htrace.
  rewrite Hres, Htrace, poll_cycles_app, (startup_no_fetch _ Hpre).
  destruct (result_of loop) as [a|e|];
    destruct Hbody as (Hr & Ht); rewrite Hr, Ht.
  - auto.
  - split; [|split; [reflexivity|]].
    + rewrite poll_cycles_app. destruct debug; cbn; lia.
    + rewrite app_assoc. apply last_last.
  - auto.
Qed.

Lemma hello_exit_status_witness :
  result_of
    (hello (steady_world None [run_build; run_lint] 250) 5 "token"
       "clowtown/pr-enforcer" "test" 10 25 (Some "enforce-all-checks")
       (Some "label, CodeQL, bridgecrew") false false) =
  Raise (SystemExit 1) /\
  last
    (trace_of
       (hello (steady_world None [run_build; run_lint] 250) 5 "token"
          "clowtown/pr-enforcer" "test" 10 25 (Some "enforce-all-checks")
          (Some "label, CodeQL, bridgecrew") false false)) (Sleep 0) =
  Log FATAL MAnnotation.
Proof.
  pose proof (hello_exit_status (steady_world None [run_build; run_lint] 250)
                5 "token" "clowtown/pr-enforcer" "test" 10 25
                (Some "enforce-all-checks") "label, CodeQL, bridgecrew"
                false false (fun _ => eq_refl)) as H.
  cbv zeta in H. destruct H as (_ & H).
  exact H.
Defined.

Section LookupFails.
Variable w : World.
Variable fuel : nat.
Variables token repository branch : string.
Variables interval timeout : Z.
Variable own_name : option string.
Variable ignore : string.
Variables exhaustive debug : bool.

Let run :=
  hello w fuel token repository branch interval timeout own_name
    (Some ignore) exhaustive debug.

Ltac startup_results :=
  do 10 (rewrite (bind_result _ _ tt) by log_result);
  rewrite (bind_result _ _ (map strip (split_comma ignore))) by reflexivity;
  do 5 (rewrite (bind_result _ _ tt) by log_result).

Ltac startup_traces :=
  do 10 (rewrite (bind_trace _ _ tt) by log_result);
  rewrite (bind_trace _ _ (map strip (split_comma ignore))) by reflexivity;
  do 5 (rewrite (bind_trace _ _ tt) by log_result).

Ltac lookup_ok H :=
  rewrite (bind_result _ _ tt) by (now rewrite (api_ok _ _ H));
  rewrite (bind_result _ _ tt) by log_result.

Ltac lookup_ok_trace H :=
  rewrite (bind_trace _ _ tt) by (now rewrite (api_ok _ _ H));
  rewrite (bind_trace _ _ tt) by log_result;
  rewrite (api_ok _ _ H).

Ltac startup_only :=
  repeat rewrite forallb_app; rewrite startup_debug_items;
  destruct debug; reflexivity.

(** The first look-up that fails ends the command, with the error of the
    client itself. *)
Lemma hello_lookup_fails call code :
  In call [GetRepo; GetBranch; GetCommit] ->
  lookup_error w call = Some code ->
  (exists code', result_of run = Raise (GithubException code')) /\
  forallb startup_event (trace_of run) = true.
Proof.
  intros Hcall Hcode. subst run. unfold hello, update_logging.
  destruct (lookup_error w GetRepo) as [c1|] eqn:H1.
  { assert (Hr : result_of (api w GetRepo) = Raise (GithubException c1))
      by (now rewrite (api_error _ _ _ H1)).
    split.
    - exists c1. startup_results.
      now rewrite (proj1 (bind_raise _ _ _ Hr)).
    - startup_traces.
      rewrite (proj2 (bind_raise _ _ _ Hr)), (api_error _ _ _ H1).
      startup_only. }
  destruct (lookup_error w GetBranch) as [c2|] eqn:H2.
  { assert (Hr : result_of (api w GetBranch) = Raise (GithubException c2))
      by (now rewrite (api_error _ _ _ H2)).
    split.
    - exists c2. startup_results. lookup_ok H1.
      now rewrite (proj1 (bind_raise _ _ _ Hr)).
    - startup_traces. lookup_ok_trace H1.
      rewrite (proj2 (bind_raise _ _ _ Hr)), (api_error _ _ _ H2).
      startup_only. }
  destruct (lookup_error w GetCommit) as [c3|] eqn:H3.
  { assert (Hr : result_of (api w GetCommit) = Raise (GithubException c3))
      by (now rewrite (api_error _ _ _ H3)).
    split.
    - exists c3. startup_results. lookup_ok H1. lookup_ok H2.
      now rewrite (proj1 (bind_raise _ _ _ Hr)).
    - startup_traces. lookup_ok_trace H1. lookup_ok_trace H2.
      rewrite (proj2 (bind_raise _ _ _ Hr)), (api_error _ _ _ H3).
      startup_only. }
  exfalso. destruct Hcall as [<-|[<-|[<-|[]]]]; congruence.
Qed.
End LookupFails.

(** X14. An error of the client while the repository, the branch or the
    commit is looked up is not caught: the command ends with that error
    itself, not with exit code 1, and has then written nothing but INFO
    and DEBUG records: no error annotation, no fetch of check runs. *)
Theorem lookup_errors_are_not_caught
        w fuel token repository branch interval timeout own_name ignore
        exhaustive debug call code :
  In call [GetRepo; GetBranch; GetCommit] ->
  lookup_error w call = Some code ->
  let run :=
    hello w fuel token repository branch interval timeout own_name
      (Some ignore) exhaustive debug in
  (exists code', result_of run = Raise (GithubException code')) /\
  forallb startup_event (trace_of run) = true /\
  poll_cycles (trace_of run) = 0%nat.
Proof.
  intros Hcall Hcode run. subst run.
  destruct (hello_lookup_fails w fuel token repository branch interval
              timeout own_name ignore exhaustive debug call code Hcall Hcode)
    as (Hres & Htrace).
  split; [exact Hres|]. split; [exact Htrace|].
  now apply startup_no_fetch.
Qed.

Lemma lookup_errors_are_not_caught_witness :
  exists code',
    result_of
      (hello
         {| GITHUB_STEP_SUMMARY := None;
            lookup_error :=
              fun call =>
                match call with GetBranch => Some 404 | _ => None end;
            get_check_runs := fun _ => inl [run_build];
            attempt_millis := fun _ => 250%N |}
         5 "token" "clowtown/pr-enforcer" "no-such-branch" 10 25
         (Some "enforce-all-checks") (Some "label") false false) =
    Raise (GithubException code').
Proof.
  apply (lookup_errors_are_not_caught
           {| GITHUB_STEP_SUMMARY := None;
              lookup_error :=
                fun call =>
                  match call with GetBranch => Some 404 | _ => None end;
              get_check_runs := fun _ => inl [run_build];
              attempt_millis := fun _ => 250%N |}
           5 "token" "clowtown/pr-enforcer" "no-such-branch" 10 25
           (Some "enforce-all-checks") "label" false false GetBranch 404).
  - right; left; reflexivity.
  - reflexivity.
Defined.

(** ** What the loop reports *)

Lemma no_summary_filter t : no_summary t -> filter is_summary_event t = [].
Proof.
  unfold no_summary. induction t as [|ev t IH]; simpl; [reflexivity|].
  intros H. apply andb_true_iff in H. destruct H as (Hev & Ht).
  destruct (is_summary_event ev); [discriminate|auto].
Qed.

(** X15. A loop that ends in Failure shows the summary table exactly once
    in all: as one append to the file that GITHUB_STEP_SUMMARY names, or,
    when that variable is unset or empty, as one debug record under
    [--debug]; with neither, no table is shown at all. *)
Theorem summary_written_once
        w fuel interval timeout user_ignore exhaustive debug :
  let run :=
    poll_vault_retrying w fuel interval timeout user_ignore exhaustive debug in
  forall msg,
    result_of run = Raise (PyException msg) ->
    exists n check_runs,
      get_check_runs w n = inl check_runs /\
      filter is_summary_event (trace_of run) =
      match GITHUB_STEP_SUMMARY w with
      | Some (String ch path) =>
          [AppendFile (String ch path)
             (String.append (summary_table (latest_runs_of check_runs)) nl)]
      | _ =>
          if debug
          then [Log DEBUG (MTable (summary_table (latest_runs_of check_runs)))]
          else []
      end.
Proof.
  intros run msg Hres. subst run. unfold poll_vault_retrying in *.
  pose proof (retrying_summary w debug exhaustive interval user_ignore
                timeout fuel 1%nat 0) as H.
  rewrite Hres in H. destruct H as (pre & n & check_runs & Hget & -> & Hpre).
  exists n, check_runs. split; [exact Hget|].
  rewrite filter_app, (no_summary_filter _ Hpre), log_summary_cases.
  destruct (GITHUB_STEP_SUMMARY w) as [[|ch path]|], debug; reflexivity.
Qed.

Lemma summary_written_once_witness :
  exists n check_runs,
    get_check_runs (steady_world None [run_build; run_lint] 250) n =
    inl check_runs /\
    filter is_summary_event
      (trace_of
         (poll_vault_retrying (steady_world None [run_build; run_lint] 250) 5
            10 25 sample_ignore false false)) = [].
Proof.
  apply (summary_written_once (steady_world None [run_build; run_lint] 250) 5
           10 25 sample_ignore false false bail_out).
  vm_compute. reflexivity.
Defined.

Lemma decide_reports_failed
      w debug exhaustive interval latest_runs _runs incomplete failed_runs :
  failed_runs <> [] ->
  In (Log FATAL (MFailedExecutions (map name failed_runs)))
     (trace_of
        (decide w debug exhaustive interval latest_runs _runs incomplete
           failed_runs)).
Proof.
  intros Hne. destruct failed_runs as [|f fs]; [contradiction|].
  unfold decide, log_summary.
  destruct incomplete, exhaustive, debug,
    (GITHUB_STEP_SUMMARY w) as [[|ch path]|]; cbn; auto.
Qed.

(** X16. Every poll that finds failed runs names them all in a record at
    level FATAL, in either mode: under [--exhaustive] also the polls that
    go on waiting report the failures found so far. *)
Theorem failed_runs_are_reported
        w debug exhaustive interval user_ignore n check_runs :
  get_check_runs w n = inl check_runs ->
  failed (classify user_ignore check_runs) <> [] ->
  In (Log FATAL
        (MFailedExecutions
           (map name (failed (classify user_ignore check_runs)))))
     (trace_of (poll_vault w debug exhaustive interval user_ignore n)).
Proof.
  intros Hget Hfailed.
  destruct (poll_vault_trace w debug exhaustive interval user_ignore n
              check_runs Hget) as (before & after & -> & _).
  apply in_or_app. right. now apply decide_reports_failed.
Qed.

Lemma failed_runs_are_reported_witness :
  decision
    (result_of
       (poll_vault (steady_world None sample_runs 250) false true 10
          sample_ignore 1)) = Some Retry /\
  In (Log FATAL (MFailedExecutions ["lint"]))
     (trace_of
        (poll_vault (steady_world None sample_runs 250) false true 10
           sample_ignore 1)).
Proof.
  split; [vm_compute; reflexivity|].
  apply (failed_runs_are_reported (steady_world None sample_runs 250) false
           true 10 sample_ignore 1 sample_runs eq_refl).
  vm_compute. discriminate.
Defined.

(** X17. The name filter drops nothing else: a run that
    [reduce_to_latest_runs] kept stays in [_runs] unless its name is the
    value of [--name] or a stripped piece of [--ignore]; with [--name]
    omitted only the pieces of [--ignore] count. *)
Theorem name_filter_drops_only_ignored
        (ignore : string) (own_name : option string)
        (check_runs : list CheckRun) (r : CheckRun) :
  In r (latest_runs_of check_runs) ->
  own_name <> Some (name r) ->
  (forall piece, In piece (split_comma ignore) -> name r <> strip piece) ->
  In r
    (runs_of (append_name (map strip (split_comma ignore)) own_name)
       check_runs).
Proof.
  intros Hr Hown Hpieces. unfold runs_of. apply filter_In.
  split; [exact Hr|]. unfold not_ignored. apply negb_true_iff.
  apply not_true_is_false. intros Hin. apply in_user_ignore_In in Hin.
  apply append_name_In in Hin. destruct Hin as [Heq|(s & Hs & Heq)].
  - now apply Hown.
  - apply in_map_iff in Hs. destruct Hs as (piece & <- & Hpiece).
    inversion Heq. now apply (Hpieces piece).
Qed.

Lemma name_filter_drops_only_ignored_witness :
  In run_self (latest_runs_of sample_runs) /\
  In run_self
    (runs_of
       (append_name (map strip (split_comma "label, CodeQL, bridgecrew"))
          None) sample_runs).
Proof.
  assert (Hin : In run_self (latest_runs_of sample_runs))
    by (vm_compute; tauto).
  split; [exact Hin|].
  apply (name_filter_drops_only_ignored "label, CodeQL, bridgecrew" None
           sample_runs run_self Hin).
  - discriminate.
  - intros piece Hpiece. vm_compute in Hpiece.
    destruct Hpiece as [<-|[<-|[<-|[]]]]; vm_compute; discriminate.
Defined.

(** ** Every ending is justified by the last poll *)

Section LastPoll.
Variable w : World.
Variable debug exhaustive : bool.
Variable interval : Z.
Variable user_ignore : list (option string).

Let poll := poll_vault w debug exhaustive interval user_ignore.

(** The fetch and the buckets behind the way a poll ends. *)
Lemma poll_vault_ending n :
  match result_of (poll n) with
  | Ok runs =>
      exists check_runs,
        get_check_runs w n = inl check_runs /\
        runs = runs_of user_ignore check_runs /\
        incomplete (classify user_ignore check_runs) = [] /\
        failed (classify user_ignore check_runs) = []
  | Raise (PyException msg) =>
      exists check_runs,
        get_check_runs w n = inl check_runs /\
        msg = bail_out /\
        failed (classify user_ignore check_runs) <> [] /\
        (exhaustive = false \/
         incomplete (classify user_ignore check_runs) = [])
  | Raise (Enforcer msg) =>
      exists check_runs,
        get_check_runs w n = inl check_runs /\
        msg = still_waiting /\
        incomplete (classify user_ignore check_runs) <> [] /\
        (exhaustive = true \/ failed (classify user_ignore check_runs) = [])
  | Raise (GithubException code) => get_check_runs w n = inr code
  | _ => False
  end.
Proof.
  unfold poll. destruct (get_check_runs w n) as [check_runs|code] eqn:Hget.
  - rewrite (poll_vault_result _ _ _ _ _ _ _ Hget), decide_result.
    destruct (incomplete (classify user_ignore check_runs))
      as [|i more] eqn:Hi;
      destruct (failed (classify user_ignore check_runs))
        as [|f fs] eqn:Hf;
      destruct exhaustive; cbn [nonempty andb negb];
      exists check_runs; rewrite ?Hi, ?Hf;
      repeat (split; [solve [reflexivity | discriminate]|]);
      solve [reflexivity | discriminate | left; reflexivity
            | right; reflexivity].
  - destruct (poll_vault_fetch_error w debug exhaustive interval user_ignore
                n code Hget) as (-> & _).
    reflexivity.
Qed.

Variable timeout : Z.

Let loop := Tenacity.retrying timeout interval (attempt_millis w) poll.

(** The last poll of a loop that has ended: attempts are numbered on from
    [n] and each fetches once, so after [k] fetches the last attempt is
    [n + k - 1]; the trace of the loop ends with the trace of that poll,
    and the loop ends like it. *)
Lemma retrying_last_poll fuel n began :
  result_of (loop fuel n began) <> OutOfFuel ->
  (1 <= poll_cycles (trace_of (loop fuel n began)))%nat /\
  exists pre,
    trace_of (loop fuel n began) =
    pre ++ trace_of
             (poll (n + poll_cycles (trace_of (loop fuel n began)) - 1)) /\
    ends_like (result_of (loop fuel n began))
      (result_of
         (poll (n + poll_cycles (trace_of (loop fuel n began)) - 1))).
Proof.
  revert n began. induction fuel as [|fuel IH]; intros n began.
  - intros H. now destruct H.
  - unfold loop.
    rewrite (retrying_step w debug exhaustive interval user_ignore timeout).
    fold poll. fold loop.
    pose proof (poll_vault_cycles w debug exhaustive interval user_ignore n)
      as Hcyc.
    pose proof (poll_vault_ending n) as Hending.
    fold poll in Hcyc.
    destruct (poll n) as [t r] eqn:Hp. cbn [trace_of result_of fst snd] in *.
    assert (Hsame : forall r0 : outcome (list CheckRun),
               ends_like r0 r ->
               (1 <= poll_cycles (trace_of (t, r0)))%nat /\
               exists pre,
                 trace_of (t, r0) =
                 pre ++ trace_of
                          (poll (n + poll_cycles (trace_of (t, r0)) - 1)) /\
                 ends_like (result_of (t, r0))
                   (result_of
                      (poll (n + poll_cycles (trace_of (t, r0)) - 1)))).
    { intros r0 Hlike. cbn [trace_of result_of fst snd]. rewrite Hcyc.
      replace (n + 1 - 1)%nat with n by lia. rewrite Hp.
      split; [lia|]. exists []. split; [reflexivity|exact Hlike]. }
    destruct r as [a|e|]; [intros _; now apply Hsame| |contradiction].
    destruct e; try contradiction; cbn [negb is_Enforcer];
      try (intros _; now apply Hsame).
    destruct (Tenacity.stop_after_delay _ _);
      [intros _; apply Hsame; now exists msg|].
    destruct (interval <? 0); [intros _; apply Hsame; now exists msg|].
    clear Hsame.
    specialize (IH (S n)
                   (began + Z.of_N (attempt_millis w n) + 1000 * interval)).
    destruct (loop fuel (S n) _) as [t' r'].
    cbn [trace_of result_of fst snd] in *.
    intros Hr. destruct (IH Hr) as (Hpos & pre & Ht' & Hlike).
    rewrite poll_cycles_app, poll_cycles_sleep, Hcyc.
    replace (n + (1 + poll_cycles t') - 1)%nat
      with (S n + poll_cycles t' - 1)%nat by lia.
    split; [lia|]. exists (t ++ Sleep interval :: pre).
    split; [|exact Hlike].
    rewrite <- app_assoc. cbn [app]. now rewrite <- Ht'.
Qed.
End LastPoll.

(** X18. Success is sound: when the retry loop returns after k fetches,
    the poll of attempt k, which is the last one made and whose records
    end the trace of the loop, fetched the check runs and found nothing
    incomplete and nothing failed among the runs that are not ignored,
    and those runs are what the loop returns. *)
Theorem success_is_sound
        w fuel interval timeout user_ignore exhaustive debug runs :
  let run :=
    poll_vault_retrying w fuel interval timeout user_ignore exhaustive debug in
  result_of run = Ok runs ->
  let k := poll_cycles (trace_of run) in
  (1 <= k)%nat /\
  exists pre check_runs,
    trace_of run =
    pre ++ trace_of (poll_vault w debug exhaustive interval user_ignore k) /\
    get_check_runs w k = inl check_runs /\
    runs = runs_of user_ignore check_runs /\
    incomplete (classify user_ignore check_runs) = [] /\
    failed (classify user_ignore check_runs) = [].
Proof.
  intros run Hres k. subst run k. unfold poll_vault_retrying in *.
  destruct (retrying_last_poll w debug exhaustive interval user_ignore
              timeout fuel 1%nat 0) as (Hpos & pre & Htrace & Hlike).
  { rewrite Hres. discriminate. }
  rewrite Hres in Hlike. cbn [ends_like] in Hlike.
  set (k := poll_cycles _) in *.
  replace (1 + k - 1)%nat with k in * by lia.
  pose proof (poll_vault_ending w debug exhaustive interval user_ignore k)
    as Hend.
  rewrite Hlike in Hend. destruct Hend as (check_runs & Hend).
  split; [exact Hpos|]. now exists pre, check_runs.
Qed.

Lemma success_is_sound_witness :
  poll_cycles
    (trace_of
       (poll_vault_retrying settling_world 5 10 25 sample_ignore false false))
  = 2%nat /\
  exists pre check_runs,
    trace_of
      (poll_vault_retrying settling_world 5 10 25 sample_ignore false false) =
    pre ++ trace_of (poll_vault settling_world false false 10 sample_ignore 2)
    /\
    get_check_runs settling_world 2 = inl check_runs /\
    [run_build] = runs_of sample_ignore check_runs /\
    incomplete (classify sample_ignore check_runs) = [] /\
    failed (classify sample_ignore check_runs) = [].
Proof.
  split; [vm_compute; reflexivity|].
  apply (success_is_sound settling_world 5 10 25 sample_ignore false false
           [run_build]).
  vm_compute. reflexivity.
Defined.

(** X19. Failure and TimedOut are sound as well.  Let the loop end after k
    fetches, so that the poll of attempt k is the last one made and its
    records end the trace of the loop.  If the loop raises the plain
    exception of a failed execution, that poll found failed runs, in
    fail-fast mode or with nothing incomplete; if the loop gives up with
    [RetryError], that poll found incomplete runs; and if the loop raises
    an error of the client, that error is the one of the fetch of that
    poll. *)
Theorem failure_and_timeout_are_sound
        w fuel interval timeout user_ignore exhaustive debug :
  let run :=
    poll_vault_retrying w fuel interval timeout user_ignore exhaustive debug in
  let k := poll_cycles (trace_of run) in
  let ends_with_poll_k :=
    (1 <= k)%nat /\
    exists pre,
      trace_of run =
      pre ++ trace_of (poll_vault w debug exhaustive interval user_ignore k)
  in
  (forall msg,
     result_of run = Raise (PyException msg) ->
     ends_with_poll_k /\
     exists check_runs,
       get_check_runs w k = inl check_runs /\
       msg = bail_out /\
       failed (classify user_ignore check_runs) <> [] /\
       (exhaustive = false \/
        incomplete (classify user_ignore check_runs) = [])) /\
  (result_of run = Raise RetryError ->
   ends_with_poll_k /\
   exists check_runs,
     get_check_runs w k = inl check_runs /\
     incomplete (classify user_ignore check_runs) <> [] /\
     (exhaustive = true \/ failed (classify user_ignore check_runs) = [])) /\
  (forall code,
     result_of run = Raise (GithubException code) ->
     ends_with_poll_k /\ get_check_runs w k = inr code).
Proof.
  intros run k ends_with_poll_k. subst ends_with_poll_k k run.
  unfold poll_vault_retrying.
  pose proof (retrying_last_poll w debug exhaustive interval user_ignore
                timeout fuel 1%nat 0) as H.
  set (k := poll_cycles _) in *.
  pose proof (poll_vault_ending w debug exhaustive interval user_ignore k)
    as Hend.
  split; [|split].
  - intros msg Hres. rewrite Hres in H.
    destruct H as (Hpos & pre & Htrace & Hlike); [discriminate|].
    replace (1 + k - 1)%nat with k in * by lia.
    cbn [ends_like] in Hlike. rewrite Hlike in Hend.
    destruct Hend as (check_runs & Hend).
    split; [split; [exact Hpos|now exists pre]|now exists check_runs].
  - intros Hres. rewrite Hres in H.
    destruct H as (Hpos & pre & Htrace & Hlike); [discriminate|].
    replace (1 + k - 1)%nat with k in * by lia.
    cbn [ends_like] in Hlike. destruct Hlike as (msg & Hlike).
    rewrite Hlike in Hend.
    destruct Hend as (check_runs & Hget & _ & Hend).
    split; [split; [exact Hpos|now exists pre]|now exists check_runs].
  - intros code Hres. rewrite Hres in H.
    destruct H as (Hpos & pre & Htrace & Hlike); [discriminate|].
    replace (1 + k - 1)%nat with k in * by lia.
    cbn [ends_like] in Hlike. rewrite Hlike in Hend.
    split; [split; [exact Hpos|now exists pre]|exact Hend].
Qed.

(** ** The names of the ignore list *)

Lemma has_comma_app s1 s2 :
  has_comma (String.append s1 s2) = has_comma s1 || has_comma s2.
Proof.
  induction s1 as [|c s1 IH]; simpl; [reflexivity|].
  now rewrite IH, orb_assoc.
Qed.

(** X5. Each name that [hello] takes from [--ignore] is one of the pieces
    between the commas with the white space at its two ends removed and
    nothing else: the piece is white space, the name, white space; the
    name neither begins nor ends with white space and holds no comma. *)
Theorem ignore_names_are_trimmed (ignore : string) (x : string) :
  In x (map strip (split_comma ignore)) ->
  starts_with_space x = false /\
  ends_with_space x = false /\
  has_comma x = false /\
  exists piece pre post,
    In piece (split_comma ignore) /\
    piece = String.append pre (String.append x post) /\
    all_space pre = true /\ all_space post = true.
Proof.
  intros Hx. apply in_map_iff in Hx. destruct Hx as (piece & <- & Hpiece).
  destruct (strip_spec piece) as (pre & post & Heq & Hpre & Hpost & Hs & He).
  split; [exact Hs|]. split; [exact He|]. split.
  - pose proof (split_comma_no_comma ignore) as Hall.
    rewrite Forall_forall in Hall. specialize (Hall piece Hpiece).
    rewrite Heq, !has_comma_app in Hall.
    apply orb_false_iff in Hall. destruct Hall as (_ & Hall).
    apply orb_false_iff in Hall. tauto.
  - now exists piece, pre, post.
Qed.

Lemma ignore_names_are_trimmed_witness :
  In "CodeQL" (map strip (split_comma "label, CodeQL, bridgecrew")) /\
  starts_with_space "CodeQL" = false /\
  ends_with_space "CodeQL" = false /\
  has_comma "CodeQL" = false.
Proof.
  assert (Hin : In "CodeQL"
                   (map strip (split_comma "label, CodeQL, bridgecrew")))
    by (vm_compute; tauto).
  destruct (ignore_names_are_trimmed "label, CodeQL, bridgecrew" "CodeQL"
              Hin) as (Hs & He & Hc & _).
  repeat split; assumption.
Defined.
